(** * Email-Automation: the sheet classifier and the send-and-record loop

    A shallow embedding of [send_email.py] from the point where the
    worksheet has been read ([all_data = sheet.get_all_values()]) to the end
    of the script, together with the properties of its column detection,
    record preparation, template rendering and status write-back.

    Conventions of the embedding:
    - a Python [str] is a list of code points below 256 ([list ascii]);
      [strip], [lower] and [splitlines] follow CPython on that range;
    - Python integers are [Z]; the sentinel [-1] of the script is kept;
    - operations that can raise ([list.index], subscripting, setting a
      header of a message) live in a small error monad.  The guards of the
      script are shown to keep the classifier from raising; the headers of
      a message are set outside any [try], and an exception there ends the
      script;
    - the outside world (the Streamlit page, the SMTP session, the
      worksheet, the clock) is an explicit state with an event trace.  Three
      capabilities are parameters: the parser of header values of the
      [email] package, beyond its line-break check; the SMTP session,
      answering each submitted message with success or an exception text;
      and [sheet.update_cell], which returns or raises.  Page calls are
      modelled as total.  Where a property speaks of the worksheet after a
      run it is stated for [reliable_sheet], a worksheet whose cell writes
      return and store the value. *)

From Stdlib Require Import ZArith Ascii String Lia Bool.
From stdpp Require Import base tactics option list list_numbers sorting strings.

Local Open Scope Z_scope.

(** ** Python strings *)

Module PyStr.

Abbreviation str := (list ascii).

Definition py (s : string) : str := list_ascii_of_string s.
Global Arguments py : simpl never.

Definition code (c : ascii) : Z := Z.of_N (N_of_ascii c).

(** [Py_UNICODE_ISSPACE] on code points below 256: TAB..CR, FS..US, SPACE,
    NEL and NBSP. *)
Definition is_space (c : ascii) : bool :=
  let n := code c in
  ((9 <=? n) && (n <=? 13)) || ((28 <=? n) && (n <=? 32))
  || (n =? 133) || (n =? 160).

(** [str.lower] on code points below 256: A..Z and the Latin-1 capitals
    (all of 0xC0..0xDE but the multiplication sign) move up by 32. *)
Definition is_upper (c : ascii) : bool :=
  let n := code c in
  ((65 <=? n) && (n <=? 90)) || ((192 <=? n) && (n <=? 214))
  || ((216 <=? n) && (n <=? 222)).

Definition lower_char (c : ascii) : ascii :=
  if is_upper c then ascii_of_N (N_of_ascii c + 32) else c.

Definition lower (s : str) : str := map lower_char s.

Fixpoint lstrip (s : str) : str :=
  match s with
  | [] => []
  | c :: s' => if is_space c then lstrip s' else s
  end.

Definition rstrip (s : str) : str := reverse (lstrip (reverse s)).

Definition strip (s : str) : str := rstrip (lstrip s).

(** [s.startswith(p)] *)
Fixpoint startswith (p s : str) : bool :=
  match p, s with
  | [], _ => true
  | _ :: _, [] => false
  | a :: p', c :: s' => if decide (a = c) then startswith p' s' else false
  end.

(** [old in s] for strings. *)
Fixpoint occurs (old s : str) : bool :=
  startswith old s ||
  match s with
  | [] => false
  | _ :: s' => occurs old s'
  end.

(** [s.replace(old, new)] for a non-empty [old]: the occurrences of [old]
    are found from left to right and do not overlap.  [skip] counts the
    characters of a matched occurrence that are still to be passed over. *)
Fixpoint replace_from (old new : str) (skip : nat) (s : str) : str :=
  match s with
  | [] => []
  | c :: s' =>
      match skip with
      | S k => replace_from old new k s'
      | O =>
          if startswith old s
          then new ++ replace_from old new (pred (length old)) s'
          else c :: replace_from old new O s'
      end
  end.

(** [s.replace(old, new)]; for the empty [old] Python puts [new] before
    every character and at the end. *)
Definition replace (old new s : str) : str :=
  match old with
  | [] => new ++ flat_map (λ c, c :: new) s
  | _ :: _ => replace_from old new O s
  end.

(** The line boundaries of [str.splitlines] below 256: LF, VT, FF, CR, FS,
    GS, RS and NEL. *)
Definition is_linebreak (c : ascii) : bool :=
  let n := code c in
  ((10 <=? n) && (n <=? 13)) || ((28 <=? n) && (n <=? 30)) || (n =? 133).

(** [s.splitlines()], with [line] the part of the current line already
    read: a CR followed by LF is one boundary, and nothing follows the last
    boundary of a text that ends on one. *)
Fixpoint splitlines_from (line s : str) : list str :=
  match s with
  | [] => match line with [] => [] | _ :: _ => [line] end
  | c :: s' =>
      if is_linebreak c then
        line ::
        match s' with
        | d :: s'' =>
            if (code c =? 13) && (code d =? 10) then splitlines_from [] s''
            else splitlines_from [] s'
        | [] => []
        end
      else splitlines_from (line ++ [c]) s'
  end.

Definition splitlines (s : str) : list str := splitlines_from [] s.

End PyStr.

Import PyStr.

(** ** Exceptions

    The exceptions that can reach the top of the script, and the monad that
    threads them: the two that a subscript, [list.index] and the [email]
    package raise, and an exception of the worksheet client, kept by its
    text. *)

Inductive exn := IndexError | ValueError | ApiError (text : str).

Inductive result (A : Type) :=
  | Ok (a : A)
  | Raise (e : exn).
Arguments Ok {A} a.
Arguments Raise {A} e.

Global Instance result_ret : MRet result := λ A a, Ok a.

Global Instance result_bind : MBind result := λ A B k m,
  match m with
  | Ok a => k a
  | Raise e => Raise e
  end.

(** ** Python lists *)

Definition len {A} (l : list A) : Z := Z.of_nat (length l).

(** [x in l] *)
Definition contains (x : str) (l : list str) : bool := bool_decide (x ∈ l).

(** [l.index(x)]: the first position holding [x]; [ValueError] if none. *)
Definition index (x : str) (l : list str) : result Z :=
  match list_find (λ y, y = x) l with
  | Some (i, _) => Ok (Z.of_nat i)
  | None => Raise ValueError
  end.

(** [l[i]], negative [i] counting from the end; [IndexError] out of range. *)
Definition getitem {A} (l : list A) (i : Z) : result A :=
  let j := if i <? 0 then i + len l else i in
  if j <? 0 then Raise IndexError
  else match l !! Z.to_nat j with
       | Some x => Ok x
       | None => Raise IndexError
       end.

(** [l[start:]] *)
Definition slice_from {A} (l : list A) (start : Z) : list A :=
  drop (Z.to_nat (if start <? 0 then Z.max 0 (start + len l) else start)) l.

(** An object is true in a condition when it is a non-empty string. *)
Definition truthy (s : str) : bool :=
  match s with
  | [] => false
  | _ :: _ => true
  end.

(** ** The classifier (lines 73-102) *)

Abbreviation raw_row := (list str).
Abbreviation grid := (list (list str)).

(** The five variables set by the header scan. *)
Record columns := {
  name_idx : Z;
  email_idx : Z;
  status_idx : Z;
  business_idx : Z;
  header_row_num : Z
}.

(** [name_idx = email_idx = status_idx = business_idx = -1],
    [header_row_num = 0]. *)
Definition initial_columns : columns :=
  {| name_idx := -1; email_idx := -1; status_idx := -1;
     business_idx := -1; header_row_num := 0 |}.

(** [[str(cell).strip().lower() for cell in row]] *)
Definition row_lower (row : raw_row) : list str :=
  map (λ cell, lower (strip cell)) row.

(** The test of line 80. *)
Definition is_header (row : raw_row) : bool :=
  contains (py "name") (row_lower row) && contains (py "email") (row_lower row).

(** Lines 81-85, for the row at position [i]. *)
Definition read_header (i : Z) (row : raw_row) : result columns :=
  let rl := row_lower row in
  n ← index (py "name") rl;
  e ← index (py "email") rl;
  s ← (if contains (py "status") rl then index (py "status") rl
        else Ok (len row));
  b ← (if contains (py "business name") rl
        then index (py "business name") rl else Ok (-1));
  Ok {| name_idx := n; email_idx := e; status_idx := s;
        business_idx := b; header_row_num := i + 1 |}.

(** The loop of lines 78-86 over the rows from position [i] on; it stops at
    the first header row. *)
Fixpoint scan_from (i : Z) (rows : grid) : result columns :=
  match rows with
  | [] => Ok initial_columns
  | row :: rest =>
      if is_header row then read_header i row
      else scan_from (i + 1) rest
  end.

Definition scan_columns (all_data : grid) : result columns :=
  scan_from 0 all_data.

(** The test of line 88. *)
Definition missing_columns (c : columns) : bool :=
  (name_idx c =? -1) || (email_idx c =? -1).

(** A contact record: the dictionary built at lines 96-102. *)
Record contact := {
  Name : str;
  Email : str;
  Business : str;
  Status : str;
  row_number : Z
}.

(** The body of the loop of lines 94-102 for one row: [Some] record when
    the row is appended, [None] when it is passed over. *)
Definition prepare_row (c : columns) (i : Z) (row : raw_row)
  : result (option contact) :=
  if Z.max (name_idx c) (email_idx c) <? len row then
    e ← getitem row (email_idx c);
    if truthy (strip e) then
      nm ← getitem row (name_idx c);
      em ← getitem row (email_idx c);
      bs ← (if negb (business_idx c =? -1) && (business_idx c <? len row)
             then getitem row (business_idx c) else Ok []);
      st ← (if status_idx c <? len row
             then getitem row (status_idx c) else Ok []);
      Ok (Some {| Name := nm; Email := em; Business := bs; Status := st;
                  row_number := i |})
    else Ok None
  else Ok None.

(** The loop of lines 94-102: [rows] are enumerated from [i], and
    [records] is the list appended to. *)
Fixpoint prepare_from (c : columns) (i : Z) (rows : grid)
    (records : list contact) : result (list contact) :=
  match rows with
  | [] => Ok records
  | row :: rest =>
      r ← prepare_row c i row;
      prepare_from c (i + 1) rest
        (match r with Some x => records ++ [x] | None => records end)
  end.

Definition prepare_records (c : columns) (all_data : grid)
  : result (list contact) :=
  prepare_from c (header_row_num c + 1)
    (slice_from all_data (header_row_num c)) [].

(** ** The outside world *)

(** The message built at lines 144-148. *)
Record EmailMessage := {
  From : str;
  To : str;
  Subject : str;
  content : str
}.

(** What the script shows on the page. *)
Inductive page_msg :=
  | MissingColumnsError            (* line 89 *)
  | NoContactsWarning              (* line 105 *)
  | FoundContacts (n : Z)          (* line 108 *)
  | LoggingIn (user : str)         (* line 113 *)
  | SmtpLoginError (e : str)       (* line 118 *)
  | ProgressBar                    (* line 122 *)
  | Progress (done total : Z)      (* line 132: (idx + 1) / len(records) *)
  | Skipping (name : str)          (* line 136 *)
  | Sending (name : str)           (* line 141 *)
  | SentTo (name email : str)      (* line 155 *)
  | FailedTo (name e : str)        (* line 159 *)
  | AllFinished                    (* line 164 *)
  | Balloons.                      (* line 165 *)

(** What the script does to the world, in the order it does it. *)
Inductive event :=
  | Page (m : page_msg)
  | SmtpConnect                           (* lines 114-116 *)
  | SendMessage (msg : EmailMessage)      (* line 151 *)
  | UpdateCell (row col : Z) (value : str)  (* lines 153 and 157: the call *)
  | Sleep                                 (* line 161: 1.5 seconds *)
  | SmtpQuit.                             (* line 163 *)

(** How the script ends: [st.stop()], the last line, or an uncaught
    exception. *)
Inductive halt := Stopped | Finished | Crashed (e : exn).

Record outcome := {
  ending : halt;
  final_sheet : grid;
  events : list event
}.

(** The worksheet after [update_cell(r, c, v)] (rows and columns count from
    1); a cell beyond the stored data is created, the gap filled with empty
    cells. *)
Definition pad {A} (n : nat) (d : A) (l : list A) : list A :=
  l ++ replicate (n - length l)%nat d.

Definition set_cell (sh : grid) (r c : Z) (v : str) : grid :=
  let i := Z.to_nat (r - 1) in
  let j := Z.to_nat (c - 1) in
  alter (λ row, <[j := v]> (pad (S j) [] row)) i (pad (S i) [] sh).

(** A worksheet whose cell writes return, the value being stored. *)
Definition reliable_sheet (sh : grid) (r c : Z) (v : str) : grid * option str :=
  (set_cell sh r c v, None).

(** ** The send-and-record loop (lines 124-161) and the script *)

Section Script.

(** The [email] package: [header_factory name value], the parser of the
    value given to a header, answers [None] when it takes the value and
    [Some e] when it raises [e]. *)
Variable header_factory : str → str → option exn.

(** The SMTP session: its state, and [server.send_message], which
    answers [None] when the message is accepted and [Some e] when it
    raises an exception whose text is [e]. *)
Context {smtp : Type}.
Variable send_message : smtp → EmailMessage → smtp * option str.

(** The worksheet: [sheet.update_cell] on the values stored, which
    leaves the values stored afterwards and answers [None] when the call
    returns and [Some e] when it raises an exception whose text is [e]. *)
Variable update_cell : grid → Z → Z → str → grid * option str.

(** [LOGIN_EMAIL] and the two text inputs of the page. *)
Variables (LOGIN_EMAIL email_subject email_body : str).

(** Line 143. *)
Definition render (name business : str) : str :=
  replace (py "{business}") business (replace (py "{name}") name email_body).

(** [msg[name] = value] on a message that has no such header yet
    ([EmailPolicy.header_store_parse]): a value of more than one line is
    refused with [ValueError], any other value goes to the parser. *)
Definition set_header (name value : str) : result unit :=
  if 1 <? len (splitlines value) then Raise ValueError
  else match header_factory name value with
       | Some e => Raise e
       | None => Ok ()
       end.

(** What lines 144-148 leave in [msg] when none of them raises. *)
Definition message_of (record : contact) : EmailMessage :=
  {| From := LOGIN_EMAIL;
     To := strip (Email record);
     Subject := email_subject;
     content := render (strip (Name record)) (strip (Business record)) |}.

(** Lines 144-148: the three headers are set in this order;
    [set_content] takes any text. *)
Definition build_message (record : contact) : result EmailMessage :=
  _ ← set_header (py "From") LOGIN_EMAIL;
  _ ← set_header (py "To") (strip (Email record));
  _ ← set_header (py "Subject") email_subject;
  Ok (message_of record).

(** The test of line 134 on the status computed at line 128. *)
Definition already_sent (record : contact) : bool :=
  bool_decide (lower (strip (Status record)) = py "sent").

(** One turn of the loop, for the record at position [idx] of [total]
    records, under the status column [sidx]: the new session and
    worksheet, the exception that ends the script in this turn if there is
    one, and the events of the turn.  Lines 143-148 stand before the [try]:
    what they raise is not caught.  The [try] of lines 150-155 holds the
    submission and the write of "Sent"; the handler of line 156 is entered
    by an exception of either, and what its own write raises is not
    caught. *)
Definition send_one (sidx total idx : Z) (record : contact)
    (w : smtp * grid) : (smtp * grid) * option exn * list event :=
  let name := strip (Name record) in
  let email := strip (Email record) in
  let row_num := row_number record in
  if already_sent record then
    (w, None, [Page (Progress (idx + 1) total); Page (Skipping name)])
  else
    match build_message record with
    | Raise x =>
        (w, Some x, [Page (Progress (idx + 1) total); Page (Sending name)])
    | Ok msg =>
        let '(srv, answer) := send_message w.1 msg in
        let '(sh, tried, caught) :=
          match answer with
          | Some e => (w.2, [], Some e)
          | None =>
              let '(sh1, a) := update_cell w.2 row_num (sidx + 1) (py "Sent") in
              (sh1, [UpdateCell row_num (sidx + 1) (py "Sent")], a)
          end in
        match caught with
        | None =>
            ((srv, sh), None,
             [Page (Progress (idx + 1) total); Page (Sending name);
              SendMessage msg] ++ tried ++ [Page (SentTo name email); Sleep])
        | Some e =>
            let '(sh2, a) := update_cell sh row_num (sidx + 1) (py "Failed") in
            match a with
            | None =>
                ((srv, sh2), None,
                 [Page (Progress (idx + 1) total); Page (Sending name);
                  SendMessage msg] ++ tried ++
                 [UpdateCell row_num (sidx + 1) (py "Failed");
                  Page (FailedTo name e); Sleep])
            | Some e2 =>
                ((srv, sh2), Some (ApiError e2),
                 [Page (Progress (idx + 1) total); Page (Sending name);
                  SendMessage msg] ++ tried ++
                 [UpdateCell row_num (sidx + 1) (py "Failed")])
            end
        end
    end.

(** [for idx, record in enumerate(records)], from position [idx] on; an
    uncaught exception ends the loop. *)
Fixpoint send_loop (sidx total idx : Z) (records : list contact)
    (w : smtp * grid) : (smtp * grid) * option exn * list event :=
  match records with
  | [] => (w, None, [])
  | record :: rest =>
      let '(w1, raised, ev1) := send_one sidx total idx record w in
      match raised with
      | Some x => (w1, Some x, ev1)
      | None =>
          let '(w2, raised2, ev2) := send_loop sidx total (idx + 1) rest w1 in
          (w2, raised2, ev1 ++ ev2)
      end
  end.

(** The script from line 73 to the end.  [session] is what lines 114-116
    give: the exception text, or the session logged in. *)
Definition run (all_data : grid) (session : str + smtp) : outcome :=
  match scan_columns all_data with
  | Raise e => {| ending := Crashed e; final_sheet := all_data; events := [] |}
  | Ok c =>
      if missing_columns c then
        {| ending := Stopped; final_sheet := all_data;
           events := [Page MissingColumnsError] |}
      else
        match prepare_records c all_data with
        | Raise e =>
            {| ending := Crashed e; final_sheet := all_data; events := [] |}
        | Ok [] =>
            {| ending := Stopped; final_sheet := all_data;
               events := [Page NoContactsWarning] |}
        | Ok records =>
            let found :=
              [Page (FoundContacts (len records));
               Page (LoggingIn LOGIN_EMAIL); SmtpConnect] in
            match session with
            | inl e =>
                {| ending := Stopped; final_sheet := all_data;
                   events := found ++ [Page (SmtpLoginError e)] |}
            | inr server =>
                let '((_, sh), raised, ev) :=
                  send_loop (status_idx c) (len records) 0 records
                    (server, all_data) in
                match raised with
                | Some x =>
                    {| ending := Crashed x; final_sheet := sh;
                       events := found ++ [Page ProgressBar] ++ ev |}
                | None =>
                    {| ending := Finished; final_sheet := sh;
                       events := found ++ [Page ProgressBar] ++ ev
                                 ++ [SmtpQuit; Page AllFinished; Page Balloons] |}
                end
            end
        end
  end.

End Script.

(** ** Reading a trace *)

(** The messages handed to the transport, in order. *)
Definition sends (tr : list event) : list EmailMessage :=
  omap (λ e, match e with SendMessage m => Some m | _ => None end) tr.

(** The calls of [update_cell], in order. *)
Definition writes (tr : list event) : list (Z * Z * str) :=
  omap (λ e, match e with UpdateCell r c v => Some (r, c, v) | _ => None end) tr.

(** The number of delays. *)
Definition is_sleep (e : event) : bool :=
  match e with
  | Sleep => true
  | _ => false
  end.

Definition sleeps (tr : list event) : nat :=
  length (filter (λ e, is_sleep e) tr).

(** Whether the trace touches the mail transport at all. *)
Definition touches_smtp (e : event) : bool :=
  match e with
  | SmtpConnect | SendMessage _ | SmtpQuit => true
  | _ => false
  end.

(** How the script ends after the loop, and its last lines (163-165),
    which are reached when the loop raised nothing. *)
Definition ending_of (raised : option exn) : halt :=
  match raised with
  | None => Finished
  | Some x => Crashed x
  end.

Definition closing (raised : option exn) : list event :=
  match raised with
  | None => [SmtpQuit; Page AllFinished; Page Balloons]
  | Some _ => []
  end.

(** The worksheet after a sequence of cell writes. *)
Definition apply_writes (sh : grid) (ws : list (Z * Z * str)) : grid :=
  foldl (λ g w, set_cell g w.1.1 w.1.2 w.2) sh ws.

(** ** Specification vocabulary *)

(** The records the loop does not skip. *)
Definition attempted (records : list contact) : list contact :=
  filter (λ r, already_sent r = false) records.

(** Whether lines 144-148 go through for a record. *)
Definition accepted (header_factory : str → str → option exn)
    (user subject body : str) (r : contact) : bool :=
  match build_message header_factory user subject body r with
  | Ok _ => true
  | Raise _ => false
  end.

(** The records whose turn comes to its end: those before the first record
    that is neither skipped nor accepted. *)
Fixpoint completed (header_factory : str → str → option exn)
    (user subject body : str) (records : list contact) : list contact :=
  match records with
  | [] => []
  | r :: rest =>
      if already_sent r || accepted header_factory user subject body r
      then r :: completed header_factory user subject body rest
      else []
  end.

(** The records whose turn begins: the completed ones and the record
    behind them, if there is one. *)
Definition started (header_factory : str → str → option exn)
    (user subject body : str) (records : list contact) : list contact :=
  take (S (length (completed header_factory user subject body records))) records.

(** A grid as [get_all_values] gives it: every row has been padded with
    empty cells to the length of the longest. *)
Definition rectangular (all_data : grid) : Prop :=
  ∀ row row', row ∈ all_data → row' ∈ all_data → length row = length row'.

(** The answers of a transport to a sequence of messages submitted one
    after the other. *)
Fixpoint answers {smtp : Type}
    (send_message : smtp → EmailMessage → smtp * option str)
    (server : smtp) (msgs : list EmailMessage) : list (option str) :=
  match msgs with
  | [] => []
  | m :: rest =>
      let '(srv, a) := send_message server m in
      a :: answers send_message srv rest
  end.

(** The status that goes with an answer of the transport. *)
Definition status_literal (a : option str) : str :=
  match a with
  | None => py "Sent"
  | Some _ => py "Failed"
  end.

(** Substitution of the two placeholders in one pass over the template:
    at each position a "{name}" gives the name, a "{business}" gives the
    business, any other character is copied; what has been put in is not
    looked at again. *)
Fixpoint substitute_from (name business : str) (skip : nat) (s : str) : str :=
  match s with
  | [] => []
  | c :: s' =>
      match skip with
      | S k => substitute_from name business k s'
      | O =>
          if startswith (py "{name}") s
          then name ++ substitute_from name business 5 s'
          else if startswith (py "{business}") s
          then business ++ substitute_from name business 9 s'
          else c :: substitute_from name business O s'
      end
  end.

Definition substitute (name business template : str) : str :=
  substitute_from name business O template.

(** A name that the second replacement of line 143 cannot touch: not
    empty, without a brace, and not a piece of the word "business". *)
Definition plain_name (name : str) : bool :=
  truthy name && negb (occurs (py "{") name) && negb (occurs (py "}") name)
  && negb (occurs name (py "business")).

(** [u] and [v] agree as far as the shorter one goes. *)
Definition overlap (u v : str) : Prop := u `prefix_of` v ∨ v `prefix_of` u.

(** [leftmost x l i]: position [i] is the first one of [l] holding [x]. *)
Definition leftmost (x : str) (l : list str) (i : Z) : Prop :=
  0 ≤ i ∧ l !! Z.to_nat i = Some x ∧
  ∀ j : nat, (j < Z.to_nat i)%nat → l !! j ≠ Some x.

(** A row is a header row when two of its cells, trimmed and lowercased,
    read "name" and "email". *)
Definition header_like (row : raw_row) : Prop :=
  (∃ cell, cell ∈ row ∧ lower (strip cell) = py "name") ∧
  (∃ cell, cell ∈ row ∧ lower (strip cell) = py "email").

(** What lines 81-85 leave in the five variables for a header row. *)
Definition resolved (i : Z) (row : raw_row) (c : columns) : Prop :=
  header_row_num c = i + 1 ∧
  leftmost (py "name") (row_lower row) (name_idx c) ∧
  leftmost (py "email") (row_lower row) (email_idx c) ∧
  (if contains (py "status") (row_lower row)
   then leftmost (py "status") (row_lower row) (status_idx c)
   else status_idx c = len row) ∧
  (if contains (py "business name") (row_lower row)
   then leftmost (py "business name") (row_lower row) (business_idx c)
   else business_idx c = -1).

(** [enumerate(l, start)] *)
Definition enumerate {A} (start : Z) (l : list A) : list (Z * A) :=
  zip (seqZ start (len l)) l.

(** A field of a record: the cell at column [k], or the empty string when
    the column is absent ([k] negative) or the row too short. *)
Definition field (row : raw_row) (k : Z) : str :=
  if 0 <=? k then default [] (row !! Z.to_nat k) else [].

(** The record of the row numbered [i]. *)
Definition record_of (c : columns) (i : Z) (row : raw_row) : contact :=
  {| Name := field row (name_idx c);
     Email := field row (email_idx c);
     Business := field row (business_idx c);
     Status := field row (status_idx c);
     row_number := i |}.

(** The rows strictly after the header row, with their sheet numbers. *)
Definition data_rows (c : columns) (all_data : grid) : list (Z * raw_row) :=
  enumerate (header_row_num c + 1) (drop (Z.to_nat (header_row_num c)) all_data).

(** Column positions as the header scan leaves them. *)
Definition well_formed (c : columns) : Prop :=
  0 ≤ name_idx c ∧ 0 ≤ email_idx c ∧ 0 ≤ status_idx c ∧ -1 ≤ business_idx c
  ∧ 0 ≤ header_row_num c.

(** The inclusion rule for a data row: at least
    [max(name_index, email_index) + 1] cells, and an email cell that is not
    empty once trimmed. *)
Definition qualifies (c : columns) (row : raw_row) : bool :=
  (Z.max (name_idx c) (email_idx c) + 1 <=? len row) &&
  match row !! Z.to_nat (email_idx c) with
  | Some e => negb (bool_decide (strip e = []))
  | None => false
  end.

(** ** Sample data *)

(** A header parser that objects to nothing. *)
Definition any_header : str → str → option exn := λ _ _, None.

(** A header parser that objects to an address ending on "@". *)
Definition strict_header : str → str → option exn :=
  λ name value,
    if bool_decide (name = py "Subject") then None
    else if bool_decide (last value = Some "@"%char) then Some IndexError
    else None.

(** A worksheet that raises on every write of "Sent", and one that raises
    on every write. *)
Definition sheet_refusing_sent (sh : grid) (r c : Z) (v : str)
  : grid * option str :=
  if bool_decide (v = py "Sent") then (sh, Some (py "429 quota exceeded"))
  else (set_cell sh r c v, None).

Definition sheet_down (sh : grid) (r c : Z) (v : str) : grid * option str :=
  (sh, Some (py "503 unavailable")).

(** A transport that accepts every message, and one that refuses the
    messages addressed to [amy@x.com]. *)
Definition accept_all : unit → EmailMessage → unit * option str :=
  λ _ _, (tt, None).

Definition refuse_amy : unit → EmailMessage → unit * option str :=
  λ _ m, (tt, if bool_decide (To m = py "amy@x.com")
              then Some (py "550 rejected") else None).

(** The sheet of the end-to-end scenario. *)
Definition sheet_bob_amy : grid :=
  [ [py "Name"; py "Email"; py "Status"];
    [py "Bob"; py "bob@x.com"; py ""];
    [py "Amy"; py "amy@x.com"; py "sent"] ].

(** A title line above the header, labels in mixed case and padded, a
    repeated label, and rows of unequal length. *)
Definition sheet_ragged : grid :=
  [ [py "Contacts 2024"];
    [py " NAME "; py "E-mail"; py "EMail"; py "name"; py "email "];
    [py "Bob"; py "x"; py "bob@x.com"; py "Bobby"; py "b2@x.com"];
    [py "   "; py ""; py "anon@x.com"];
    [py "Cara"; py ""; py "  "];
    [py "Dan"];
    [py "Amy"; py ""; py "amy@x.com"; py ""; py ""; py "SENT "] ].

(** The two records of [sheet_bob_amy]. *)
Definition bob : contact :=
  {| Name := py "Bob"; Email := py "bob@x.com"; Business := [];
     Status := []; row_number := 2 |}.

Definition amy : contact :=
  {| Name := py "Amy"; Email := py "amy@x.com"; Business := [];
     Status := py "sent"; row_number := 3 |}.

(** A record whose last attempt failed, and one whose name spells the
    business placeholder. *)
Definition eve : contact :=
  {| Name := py " Eve"; Email := py "amy@x.com "; Business := py "Acme";
     Status := py "Failed"; row_number := 4 |}.

Definition odd : contact :=
  {| Name := py "{business}"; Email := py "odd@x.com"; Business := py "Acme";
     Status := []; row_number := 5 |}.

(** A header row in which every label comes twice. *)
Definition sheet_duplicates : grid :=
  [ [py "Status"; py "Name"; py "Business Name"; py " status"; py "Email";
     py "NAME"; py "email"; py "business name "];
    [py ""; py "Bob"; py "Acme"; py "sent"; py "bob@x.com";
     py "Robert"; py "r@x.com"; py "Apex"] ].

(** A sheet without a header row. *)
Definition sheet_headless : grid :=
  [ [py "Name"; py "Mail"]; [py "Bob"; py "bob@x.com"] ].

(** A sheet without a status column. *)
Definition sheet_no_status : grid :=
  [ [py "Name"; py "Email"];
    [py "Bob"; py "bob@x.com"];
    [py "Amy"; py "amy@x.com"] ].

(** An email cell of two lines, between two ordinary rows; the first row
    has a blank name. *)
Definition two_lines : str :=
  py "cy@x.com" ++ [ascii_of_nat 10] ++ py "cy@y.com".

Definition sheet_two_lines : grid :=
  [ [py "Name"; py "Email"; py "Status"];
    [py "Amy"; py "amy@x.com"; py ""];
    [py " "; two_lines; py ""];
    [py "Bob"; py "bob@x.com"; py ""] ].

Definition cy : contact :=
  {| Name := py " "; Email := two_lines; Business := [];
     Status := []; row_number := 3 |}.

(** ** Vocabulary for the rest of the script *)

(** A text with no whitespace at either end (the empty text included). *)
Definition trimmed (s : str) : Prop :=
  (∀ c, head s = Some c → is_space c = false) ∧
  (∀ c, last s = Some c → is_space c = false).

(** [cell] spells [label] in some letter case, with whitespace around it. *)
Definition variant (label cell : str) : Prop :=
  ∃ pre core post, cell = pre ++ core ++ post ∧
    Forall (λ c, is_space c = true) pre ∧
    Forall (λ c, is_space c = true) post ∧
    lower core = label.

(** The text of the cell in row [i], column [j] of a worksheet (both
    counted from 0); a cell that is not stored reads as the empty text. *)
Definition cell (sh : grid) (i j : nat) : str :=
  default [] (sh !! i ≫= λ row, row !! j).

(** The row that [update_cell] leaves at the row it writes. *)
Definition written_row (row : list str) (c : Z) (v : str) : list str :=
  <[Z.to_nat (c - 1) := v]> (pad (S (Z.to_nat (c - 1))) [] row).

(** Where a cell write lands, counted from 0. *)
Definition target (w : Z * Z * str) : nat * nat :=
  (Z.to_nat (w.1.1 - 1), Z.to_nat (w.1.2 - 1)).

(** The write of a sequence of writes that aims at sheet row [n], if any. *)
Definition write_for (ws : list (Z * Z * str)) (n : Z) : option (Z * Z * str) :=
  snd <$> list_find (λ w, w.1.1 = n) ws.

(** Sheet row [n] after a sequence of writes to different rows. *)
Definition row_after (ws : list (Z * Z * str)) (n : Z) (row : list str)
  : list str :=
  match write_for ws n with
  | Some w => written_row row w.1.2 w.2
  | None => row
  end.

(** A record as the next run reads it: the status is the one written in
    its row, if one was. *)
Definition reread (ws : list (Z * Z * str)) (r : contact) : contact :=
  {| Name := Name r; Email := Email r; Business := Business r;
     Status := match write_for ws (row_number r) with
               | Some w => w.2
               | None => Status r
               end;
     row_number := row_number r |}.

(** The values given to the progress bar, as numerator and denominator. *)
Definition progress (tr : list event) : list (Z * Z) :=
  omap (λ e, match e with Page (Progress d t) => Some (d, t) | _ => None end) tr.

(** The per-record lines of the log: who was skipped, sent to, or failed,
    as (name, was it an attempt). *)
Definition reported (tr : list event) : list (str * bool) :=
  omap (λ e, match e with
             | Page (Skipping n) => Some (n, false)
             | Page (SentTo n _) | Page (FailedTo n _) => Some (n, true)
             | _ => None
             end) tr.

(** ** The front of the script (lines 10-70) *)

(** What the page shows before the classifier runs. *)
Inductive front_msg :=
  | PageHeader                       (* lines 11-14 *)
  | CredentialsError                 (* line 23 *)
  | InputForm                        (* lines 27-35 *)
  | UrlWarning                       (* line 42 *)
  | SubjectBodyWarning               (* line 45 *)
  | ConnectingToSheets               (* line 53 *)
  | SheetsError (e : str).           (* line 69 *)

Inductive script_event :=
  | Front (m : front_msg)
  | OpenSheet (url : str)            (* lines 64-67 *)
  | Core (e : event).                (* line 73 to the end *)

(** The environment variables, the button and the three text inputs. *)
Record inputs := {
  EMAIL_USER : option str;
  EMAIL_PASSWORD : option str;
  clicked : bool;
  sheet_url : str;
  email_subject : str;
  email_body : str
}.

Record script_outcome := {
  script_ending : halt;
  script_events : list script_event;
  script_sheet : option grid
}.

(** [not x] for the result of [os.getenv]: [None] and the empty string. *)
Definition unset (x : option str) : bool :=
  match x with
  | None => true
  | Some s => negb (truthy s)
  end.

(** An event that reaches Google Sheets or the mail transport. *)
Definition external (ev : script_event) : bool :=
  match ev with
  | OpenSheet _ => true
  | Core (UpdateCell _ _ _) => true
  | Core e => touches_smtp e
  | Front _ => false
  end.

(** The whole script.  [worksheet] is what lines 63-67 give: the exception
    text, or the first worksheet, given by the values that line 73 reads
    from it (the reading itself is modelled as total); [session] is what
    lines 114-116 give; the header parser, the transport and the cell
    writes are those of the loop. *)
Definition script {smtp : Type}
    (header_factory : str → str → option exn)
    (send_message : smtp → EmailMessage → smtp * option str)
    (update_cell : grid → Z → Z → str → grid * option str)
    (inp : inputs) (worksheet : str + grid) (session : str + smtp)
  : script_outcome :=
  if unset (EMAIL_USER inp) || unset (EMAIL_PASSWORD inp) then
    {| script_ending := Stopped; script_sheet := None;
       script_events := [Front PageHeader; Front CredentialsError] |}
  else if negb (clicked inp) then
    {| script_ending := Finished; script_sheet := None;
       script_events := [Front PageHeader; Front InputForm] |}
  else if negb (truthy (sheet_url inp)) then
    {| script_ending := Stopped; script_sheet := None;
       script_events := [Front PageHeader; Front InputForm; Front UrlWarning] |}
  else if negb (truthy (email_subject inp)) || negb (truthy (email_body inp)) then
    {| script_ending := Stopped; script_sheet := None;
       script_events :=
         [Front PageHeader; Front InputForm; Front SubjectBodyWarning] |}
  else
    let opening :=
      [Front PageHeader; Front InputForm; Front ConnectingToSheets;
       OpenSheet (sheet_url inp)] in
    match worksheet with
    | inl e =>
        {| script_ending := Stopped; script_sheet := None;
           script_events := opening ++ [Front (SheetsError e)] |}
    | inr all_data =>
        let out := run header_factory send_message update_cell
                     (default [] (EMAIL_USER inp))
                     (email_subject inp) (email_body inp) all_data session in
        {| script_ending := ending out;
           script_sheet := Some (final_sheet out);
           script_events := opening ++ map Core (events out) |}
    end.

(** A sheet before its first run. *)
Definition sheet_fresh : grid :=
  [ [py "Name"; py "Email"; py "Status"];
    [py "Amy"; py "amy@x.com"; py ""];
    [py "Bob"; py "bob@x.com"] ].

(** A complete configuration, for the examples. *)
Definition ready : inputs :=
  {| EMAIL_USER := Some (py "me@x.com"); EMAIL_PASSWORD := Some (py "secret");
     clicked := true; sheet_url := py "https://docs.google.com/spreadsheets/d/1";
     email_subject := py "Hi"; email_body := py "Hi {name}" |}.

Example strip_example : strip (py "  Bob 	") = py "Bob".
Proof. reflexivity. Qed.

Example lower_example : lower (py "E-Mail") = py "e-mail".
Proof. reflexivity. Qed.

(** Code point 196 (A with diaeresis) is lowered to 228; 215 (the
    multiplication sign) and 223 (sharp s) are left alone. *)
Example lower_latin1_example :
  lower (map ascii_of_nat [196; 215; 223]%nat) = map ascii_of_nat [228; 215; 223]%nat.
Proof. reflexivity. Qed.

(** The whitespace code points and the code points changed by [lower]. *)
Example is_space_table :
  filter (λ n, is_space (ascii_of_nat n)) (seq 0 256)
  = [9; 10; 11; 12; 13; 28; 29; 30; 31; 32; 133; 160]%nat.
Proof. by vm_compute. Qed.

Example is_upper_table :
  filter (λ n, is_upper (ascii_of_nat n)) (seq 0 256)
  = (seq 65 26 ++ seq 192 23 ++ seq 216 7)%nat.
Proof. by vm_compute. Qed.

Example replace_example :
  replace (py "aa") (py "b") (py "aaaXaa{") = py "baXb{".
Proof. reflexivity. Qed.

Example replace_empty_example :
  replace [] (py "-") (py "ab") = py "-a-b-".
Proof. reflexivity. Qed.

(** ** Lists: membership and first position *)

Lemma contains_true x l : contains x l = true ↔ x ∈ l.
Proof. unfold contains. by rewrite bool_decide_eq_true. Qed.

Lemma contains_false x l : contains x l = false ↔ x ∉ l.
Proof. unfold contains. by rewrite bool_decide_eq_false. Qed.

Lemma index_leftmost x l i : index x l = Ok i ↔ leftmost x l i.
Proof.
  unfold index, leftmost. split.
  - destruct (list_find _ l) as [[k y]|] eqn:Hf; [|done].
    intros [= <-]. apply list_find_Some in Hf as (Hk & -> & Hmin).
    rewrite Nat2Z.id. split_and!; [lia|done|].
    intros j Hj Hx. by apply (Hmin j x).
  - intros (Hi & Hx & Hmin).
    assert (list_find (λ y, y = x) l = Some (Z.to_nat i, x)) as ->.
    { apply list_find_Some. split_and!; [done..|].
      intros j y Hy Hj ->. by apply (Hmin j). }
    f_equal. lia.
Qed.

Lemma index_contains x l : x ∈ l → ∃ i, index x l = Ok i.
Proof.
  intros Hx. unfold index.
  destruct (list_find_elem_of (λ y, y = x) l x Hx eq_refl) as [[i y] ->].
  eauto.
Qed.

Lemma index_raises x l : index x l = Raise ValueError ↔ x ∉ l.
Proof.
  unfold index. split.
  - destruct (list_find _ l) as [[k y]|] eqn:Hf; [done|].
    intros _ Hx. apply list_find_None in Hf.
    by apply (proj1 (Forall_forall _ _) Hf x).
  - intros Hx. destruct (list_find _ l) as [[k y]|] eqn:Hf; [|done].
    apply list_find_Some in Hf as (Hk & -> & _).
    destruct Hx. by eapply list_elem_of_lookup_2.
Qed.

Lemma row_lower_elem x row :
  x ∈ row_lower row ↔ ∃ cell, cell ∈ row ∧ lower (strip cell) = x.
Proof.
  unfold row_lower. rewrite list_elem_of_fmap. split.
  - intros (cell & -> & Hc). eauto.
  - intros (cell & Hc & <-). eauto.
Qed.

Lemma is_header_like row : is_header row = true ↔ header_like row.
Proof.
  unfold is_header, header_like.
  rewrite andb_true_iff, !contains_true, !row_lower_elem. done.
Qed.

Lemma is_header_not_like row : is_header row = false ↔ ¬ header_like row.
Proof. rewrite <-is_header_like. by destruct (is_header row). Qed.

(** ** The header scan *)

Lemma read_header_resolved i row :
  is_header row = true → ∃ c, read_header i row = Ok c ∧ resolved i row c.
Proof.
  unfold is_header. rewrite andb_true_iff, !contains_true. intros [Hn He].
  destruct (index_contains _ _ Hn) as [n Hin].
  destruct (index_contains _ _ He) as [e Hie].
  unfold read_header, resolved.
  destruct (contains (py "status") (row_lower row)) eqn:Hs;
    destruct (contains (py "business name") (row_lower row)) eqn:Hb.
  all: repeat match goal with
       | H : contains ?x ?l = true |- _ =>
           apply contains_true, index_contains in H as [? H]
       end.
  all: repeat match goal with
       | H : index _ _ = Ok _ |- _ => rewrite H; apply index_leftmost in H
       end.
  all: cbn [mbind result_bind]; eexists; split; [reflexivity|].
  all: cbn [header_row_num name_idx email_idx status_idx business_idx].
  all: by split_and!.
Qed.

Lemma read_header_inv i row c :
  read_header i row = Ok c → is_header row = true → resolved i row c.
Proof.
  intros Hc Hh. destruct (read_header_resolved i row Hh) as (c' & Hc' & Hr).
  congruence.
Qed.

Lemma resolved_not_missing i row c : resolved i row c → missing_columns c = false.
Proof.
  intros (_ & (Hn & _) & (He & _) & _). unfold missing_columns.
  apply orb_false_iff. split; apply Z.eqb_neq; lia.
Qed.

Lemma scan_from_none i rows :
  Forall (λ r, is_header r = false) rows → scan_from i rows = Ok initial_columns.
Proof.
  intros H. revert i. induction H as [|r rows Hr _ IH]; intros i; simpl; [done|].
  by rewrite Hr.
Qed.

Lemma scan_from_found i pre row post :
  Forall (λ r, is_header r = false) pre → is_header row = true →
  scan_from i (pre ++ row :: post) = read_header (i + len pre) row.
Proof.
  intros Hpre Hrow. revert i.
  induction Hpre as [|r pre Hr _ IH]; intros i; simpl.
  - rewrite Hrow. f_equal. unfold len. simpl. lia.
  - rewrite Hr, IH. f_equal. unfold len. simpl length. lia.
Qed.

(** Every grid either has no header row or splits at its first one. *)
Lemma first_header (rows : grid) :
  Forall (λ r, is_header r = false) rows ∨
  ∃ pre row post, rows = pre ++ row :: post ∧
    Forall (λ r, is_header r = false) pre ∧ is_header row = true.
Proof.
  induction rows as [|r rows IH]; [by left|].
  destruct (is_header r) eqn:Hr.
  - right. exists [], r, rows. by split_and!.
  - destruct IH as [IH|(pre & row & post & -> & Hpre & Hrow)].
    + left. by constructor.
    + right. exists (r :: pre), row, post. split_and!; [done| |done].
      by constructor.
Qed.

(** The scan never raises: the [in] tests guard every [index]. *)
Lemma scan_columns_total all_data : ∃ c, scan_columns all_data = Ok c.
Proof.
  unfold scan_columns.
  destruct (first_header all_data) as [H|(pre & row & post & -> & Hpre & Hrow)].
  - rewrite scan_from_none by done. eauto.
  - rewrite scan_from_found by done.
    destruct (read_header_resolved (0 + len pre) row Hrow) as (c & -> & _). eauto.
Qed.

(** A scan that passes the test of line 88 stopped at the first header
    row. *)
Lemma scan_columns_inv all_data c :
  scan_columns all_data = Ok c → missing_columns c = false →
  ∃ pre row post, all_data = pre ++ row :: post ∧
    Forall (λ r, is_header r = false) pre ∧ is_header row = true ∧
    resolved (len pre) row c.
Proof.
  unfold scan_columns. intros Hc Hm.
  destruct (first_header all_data) as [H|(pre & row & post & -> & Hpre & Hrow)].
  - rewrite scan_from_none in Hc by done. by injection Hc as <-.
  - exists pre, row, post. split_and!; [done..|].
    rewrite scan_from_found in Hc by done.
    by apply (read_header_inv (0 + len pre)).
Qed.

Lemma resolved_well_formed i row c : 0 ≤ i → resolved i row c → well_formed c.
Proof.
  intros Hi (Hh & (Hn & _) & (He & _) & Hs & Hb). unfold well_formed.
  split_and!; [done..| | |lia].
  - destruct (contains (py "status") _); [by destruct Hs|]. unfold len in Hs. lia.
  - destruct (contains (py "business name") _); [destruct Hb|]; lia.
Qed.

(** ** Record preparation *)

Lemma getitem_lookup {A} (l : list A) i x :
  0 ≤ i → l !! Z.to_nat i = Some x → getitem l i = Ok x.
Proof.
  intros Hi Hx. unfold getitem.
  destruct (i <? 0) eqn:Hneg; [apply Z.ltb_lt in Hneg; lia|].
  rewrite Hneg. by rewrite Hx.
Qed.

Lemma getitem_in_range {A} (l : list A) i :
  0 ≤ i → i < len l → ∃ x, l !! Z.to_nat i = Some x ∧ getitem l i = Ok x.
Proof.
  intros Hi Hl. unfold len in Hl.
  destruct (lookup_lt_is_Some_2 l (Z.to_nat i)) as [x Hx]; [lia|].
  exists x. split; [done|]. by apply getitem_lookup.
Qed.

Lemma field_in_range (row : raw_row) i x :
  0 ≤ i → row !! Z.to_nat i = Some x → field row i = x.
Proof.
  intros Hi Hx. unfold field.
  destruct (0 <=? i) eqn:H0; [|apply Z.leb_gt in H0; lia]. by rewrite Hx.
Qed.

Lemma field_short (row : raw_row) i : len row ≤ i → field row i = [].
Proof.
  intros Hl. unfold field, len in *. destruct (0 <=? i); [|done].
  rewrite lookup_ge_None_2; [done|lia].
Qed.

Lemma field_absent (row : raw_row) : field row (-1) = [].
Proof. done. Qed.

(** One row: under the columns of a header scan no subscript raises, and
    the row is kept exactly when it qualifies. *)
Lemma prepare_row_spec c i row :
  well_formed c →
  prepare_row c i row =
    Ok (if qualifies c row then Some (record_of c i row) else None).
Proof.
  intros (Hn & He & Hs & Hb & _). unfold prepare_row, qualifies.
  destruct (Z.max (name_idx c) (email_idx c) <? len row) eqn:Hlen.
  - apply Z.ltb_lt in Hlen.
    replace (Z.max (name_idx c) (email_idx c) + 1 <=? len row) with true
      by (symmetry; apply Z.leb_le; lia).
    destruct (getitem_in_range row (email_idx c)) as (e & Hle & Hge); [lia..|].
    destruct (getitem_in_range row (name_idx c)) as (n & Hln & Hgn); [lia..|].
    rewrite Hge, Hle. cbn [mbind result_bind andb].
    destruct (strip e) eqn:Hse; cbn [truthy]; [by rewrite bool_decide_eq_true_2|].
    rewrite bool_decide_eq_false_2 by done. cbn [negb].
    rewrite Hgn. cbn [mbind result_bind].
    assert ((if negb (business_idx c =? -1) && (business_idx c <? len row)
             then getitem row (business_idx c) else Ok [])
            = Ok (field row (business_idx c))) as ->.
    { destruct (business_idx c =? -1) eqn:Hb1; cbn [negb andb].
      - apply Z.eqb_eq in Hb1. by rewrite Hb1.
      - apply Z.eqb_neq in Hb1.
        destruct (business_idx c <? len row) eqn:Hb2.
        + apply Z.ltb_lt in Hb2.
          destruct (getitem_in_range row (business_idx c)) as (b & Hlb & ->);
            [lia..|].
          rewrite (field_in_range row (business_idx c) b); [done|lia|done].
        + apply Z.ltb_ge in Hb2. by rewrite field_short. }
    assert ((if status_idx c <? len row
             then getitem row (status_idx c) else Ok [])
            = Ok (field row (status_idx c))) as ->.
    { destruct (status_idx c <? len row) eqn:Hs2.
      - apply Z.ltb_lt in Hs2.
        destruct (getitem_in_range row (status_idx c)) as (b & Hlb & ->);
          [lia..|].
        rewrite (field_in_range row (status_idx c) b); [done|lia|done].
      - apply Z.ltb_ge in Hs2. by rewrite field_short. }
    cbn [mbind result_bind]. unfold record_of.
    rewrite (field_in_range row (name_idx c) n); [|done..].
    by rewrite (field_in_range row (email_idx c) e); [|done..].
  - apply Z.ltb_ge in Hlen.
    replace (Z.max (name_idx c) (email_idx c) + 1 <=? len row) with false
      by (symmetry; apply Z.leb_gt; lia).
    done.
Qed.

Lemma enumerate_nil {A} s : enumerate s (@nil A) = [].
Proof. done. Qed.

Lemma enumerate_cons {A} s (x : A) l :
  enumerate s (x :: l) = (s, x) :: enumerate (s + 1) l.
Proof.
  unfold enumerate, len. simpl length.
  rewrite seqZ_cons by lia. simpl. do 3 f_equal; lia.
Qed.

Lemma enumerate_lookup {A} s (l : list A) k n x :
  enumerate s l !! k = Some (n, x) ↔ n = s + Z.of_nat k ∧ l !! k = Some x.
Proof.
  revert s k. induction l as [|y l IH]; intros s k.
  - rewrite enumerate_nil, !lookup_nil. split; [done|by intros [_ ?]].
  - rewrite enumerate_cons. destruct k as [|k]; simpl.
    + split; [intros [= -> ->]; split; [lia|done]|].
      intros [-> [= ->]]. do 2 f_equal. lia.
    + rewrite IH. split; intros [-> ?]; (split; [lia|done]).
Qed.

Lemma enumerate_length {A} s (l : list A) : length (enumerate s l) = length l.
Proof.
  revert s. induction l as [|y l IH]; intros s; [done|].
  rewrite enumerate_cons. simpl. by rewrite IH.
Qed.

Lemma enumerate_snd {A} s (l : list A) : (enumerate s l).*2 = l.
Proof.
  revert s. induction l as [|y l IH]; intros s; [done|].
  rewrite enumerate_cons. simpl. by rewrite IH.
Qed.

(** The numbers of an enumeration increase. *)
Lemma enumerate_sorted {A} s (l : list A) :
  StronglySorted Z.lt (enumerate s l).*1.
Proof.
  revert s. induction l as [|y l IH]; intros s; [constructor|].
  rewrite enumerate_cons. simpl. constructor; [apply IH|].
  apply Forall_forall. intros n Hn.
  apply list_elem_of_fmap in Hn as ([n' x] & -> & Hx).
  apply list_elem_of_lookup in Hx as [k Hk].
  apply enumerate_lookup in Hk as [-> _]. simpl. lia.
Qed.

(** The loop of lines 94-102 never raises under the columns of a header
    scan, and appends the records of the qualifying rows in row order. *)
Lemma prepare_from_spec c i rows acc :
  well_formed c →
  prepare_from c i rows acc =
    Ok (acc ++ map (λ p, record_of c p.1 p.2)
                   (filter (λ p, qualifies c p.2) (enumerate i rows))).
Proof.
  intros Hwf. revert i acc. induction rows as [|row rows IH]; intros i acc.
  - simpl. by rewrite app_nil_r.
  - simpl. rewrite prepare_row_spec by done. cbn [mbind result_bind].
    rewrite IH, enumerate_cons, filter_cons. simpl.
    destruct (qualifies c row); simpl; [|done].
    by rewrite <-app_assoc.
Qed.

Lemma slice_from_drop {A} (l : list A) h :
  0 ≤ h → slice_from l h = drop (Z.to_nat h) l.
Proof.
  intros Hh. unfold slice_from.
  destruct (h <? 0) eqn:Hneg; [apply Z.ltb_lt in Hneg; lia|done].
Qed.

Lemma prepare_records_spec c all_data :
  well_formed c →
  prepare_records c all_data =
    Ok (map (λ p, record_of c p.1 p.2)
            (filter (λ p, qualifies c p.2) (data_rows c all_data))).
Proof.
  intros Hwf. unfold prepare_records, data_rows.
  rewrite prepare_from_spec by done.
  rewrite slice_from_drop by apply Hwf. done.
Qed.

(** The number attached to a data row is its position in the sheet,
    counted from 1, and lies below the header row. *)
Lemma data_rows_position c all_data n row :
  0 ≤ header_row_num c →
  (n, row) ∈ data_rows c all_data →
  header_row_num c < n ∧ all_data !! Z.to_nat (n - 1) = Some row.
Proof.
  intros Hh Hin. apply list_elem_of_lookup in Hin as [k Hk].
  apply enumerate_lookup in Hk as [-> Hk].
  rewrite lookup_drop in Hk. split; [lia|].
  rewrite <-Hk. f_equal. lia.
Qed.

Lemma data_rows_functional c all_data n row row' :
  (n, row) ∈ data_rows c all_data → (n, row') ∈ data_rows c all_data →
  row = row'.
Proof.
  intros [k Hk]%list_elem_of_lookup [k' Hk']%list_elem_of_lookup.
  apply enumerate_lookup in Hk as [Hn Hk].
  apply enumerate_lookup in Hk' as [Hn' Hk'].
  assert (k = k') as -> by lia. congruence.
Qed.

(** ** Header detection *)

(** C1. Scanning the grid from the top, the header row is the first row
    that holds, among its cells trimmed and lowercased, both "name" and
    "email": the scan stops there, records its (1-based) number and resolves
    the name and email columns to cells of that row reading "name" and
    "email".  When no row is like that the scan leaves the initial values,
    and the script stops on the missing-columns error with nothing else
    done: no record, no connection, no message. *)
Theorem header_detection (all_data : grid) :
  (∀ (i : nat) row,
     all_data !! i = Some row → header_like row →
     (∀ (j : nat) r, (j < i)%nat → all_data !! j = Some r → ¬ header_like r) →
     ∃ c, scan_columns all_data = Ok c ∧ missing_columns c = false ∧
          header_row_num c = Z.of_nat i + 1 ∧
          leftmost (py "name") (row_lower row) (name_idx c) ∧
          leftmost (py "email") (row_lower row) (email_idx c))
  ∧
  ((∀ row, row ∈ all_data → ¬ header_like row) →
     scan_columns all_data = Ok initial_columns ∧
     ∀ (smtp : Type) header (send : smtp → EmailMessage → smtp * option str)
       update user subject body session,
       run header send update user subject body all_data session =
         {| ending := Stopped; final_sheet := all_data;
            events := [Page MissingColumnsError] |}).
Proof.
  split.
  - intros i row Hi Hrow Hfirst.
    assert (Forall (λ r, is_header r = false) (take i all_data)) as Hpre.
    { apply Forall_lookup. intros j r Hj.
      apply lookup_take_Some in Hj as [Hj Hlt].
      apply is_header_not_like. by apply (Hfirst j). }
    apply is_header_like in Hrow.
    unfold scan_columns.
    rewrite <-(take_drop_middle all_data i row Hi).
    rewrite scan_from_found by done.
    destruct (read_header_resolved (0 + len (take i all_data)) row Hrow)
      as (c & Hc & Hres).
    exists c. split; [done|]. split; [by eapply resolved_not_missing|].
    destruct Hres as (Hh & Hn & He & _). split_and!; [|done..].
    rewrite Hh. unfold len. rewrite length_take.
    apply lookup_lt_Some in Hi. lia.
  - intros Hnone.
    assert (scan_columns all_data = Ok initial_columns) as Hscan.
    { apply scan_from_none, Forall_forall. intros r Hr.
      apply is_header_not_like. by apply Hnone. }
    split; [done|]. intros. unfold run. by rewrite Hscan.
Qed.

Lemma header_detection_witness :
  (∃ c, scan_columns sheet_ragged = Ok c ∧ missing_columns c = false ∧
        header_row_num c = 2 ∧
        leftmost (py "name")
          (row_lower [py " NAME "; py "E-mail"; py "EMail"; py "name"; py "email "])
          (name_idx c) ∧
        leftmost (py "email")
          (row_lower [py " NAME "; py "E-mail"; py "EMail"; py "name"; py "email "])
          (email_idx c))
  ∧ run any_header accept_all reliable_sheet (py "me@x.com") (py "Hi") (py "Hi {name}")
      sheet_headless (inr tt)
    = {| ending := Stopped; final_sheet := sheet_headless;
         events := [Page MissingColumnsError] |}.
Proof.
  split.
  - apply (proj1 (header_detection sheet_ragged) 1%nat).
    + reflexivity.
    + apply is_header_like. reflexivity.
    + intros j r Hj Hr. destruct j as [|j]; [|lia].
      injection Hr as <-. apply is_header_not_like. reflexivity.
  - apply (proj2 (header_detection sheet_headless)).
    intros row Hrow. apply is_header_not_like.
    apply list_elem_of_lookup in Hrow as [i Hi].
    destruct i as [|[|i]]; [by injection Hi as <-..|done].
Defined.

(** C10. When the header row repeats a label, each field takes the
    leftmost column carrying it: the index kept for "name", "email",
    "status" and "business name" is a position whose normalized cell is the
    label, and no position to its left is. *)
Theorem duplicate_headers_leftmost (all_data : grid) (c : columns) :
  scan_columns all_data = Ok c → missing_columns c = false →
  ∃ row, all_data !! Z.to_nat (header_row_num c - 1) = Some row ∧
    leftmost (py "name") (row_lower row) (name_idx c) ∧
    leftmost (py "email") (row_lower row) (email_idx c) ∧
    (py "status" ∈ row_lower row →
       leftmost (py "status") (row_lower row) (status_idx c)) ∧
    (py "business name" ∈ row_lower row →
       leftmost (py "business name") (row_lower row) (business_idx c)).
Proof.
  intros Hc Hm.
  destruct (scan_columns_inv _ _ Hc Hm)
    as (pre & row & post & -> & Hpre & Hrow & Hh & Hn & He & Hs & Hb).
  exists row. split_and!; [|done..| |].
  - rewrite Hh. unfold len.
    replace (Z.to_nat (Z.of_nat (length pre) + 1 - 1)) with (length pre) by lia.
    by rewrite list_lookup_middle.
  - intros Hin. apply contains_true in Hin. by rewrite Hin in Hs.
  - intros Hin. apply contains_true in Hin. by rewrite Hin in Hb.
Qed.

Lemma duplicate_headers_leftmost_witness :
  ∃ row, sheet_duplicates !! 0%nat = Some row ∧
    leftmost (py "name") (row_lower row) 1 ∧
    leftmost (py "email") (row_lower row) 4 ∧
    leftmost (py "status") (row_lower row) 0 ∧
    leftmost (py "business name") (row_lower row) 2.
Proof.
  destruct (duplicate_headers_leftmost sheet_duplicates
              {| name_idx := 1; email_idx := 4; status_idx := 0;
                 business_idx := 2; header_row_num := 1 |} eq_refl eq_refl)
    as (row & Hrow & Hn & He & Hs & Hb).
  exists row. split_and!; [exact Hrow|exact Hn|exact He| |].
  - apply Hs. injection Hrow as <-. apply (bool_decide_unpack _). by vm_compute.
  - apply Hb. injection Hrow as <-. apply (bool_decide_unpack _). by vm_compute.
Defined.

(** ** Record inclusion *)

Lemma scan_columns_well_formed all_data c :
  scan_columns all_data = Ok c → missing_columns c = false → well_formed c.
Proof.
  intros Hc Hm.
  destruct (scan_columns_inv _ _ Hc Hm) as (pre & row & post & _ & _ & _ & Hr).
  eapply resolved_well_formed; [|done]. unfold len. lia.
Qed.

(** A prepared record comes from a qualifying row below the header, and
    carries the sheet number and the cells of that row. *)
Lemma prepared_record_row all_data c records r :
  scan_columns all_data = Ok c → missing_columns c = false →
  prepare_records c all_data = Ok records → r ∈ records →
  ∃ row, all_data !! Z.to_nat (row_number r - 1) = Some row ∧
         header_row_num c < row_number r ∧
         qualifies c row = true ∧ r = record_of c (row_number r) row.
Proof.
  intros Hc Hm Hp Hr. pose proof (scan_columns_well_formed _ _ Hc Hm) as Hwf.
  rewrite prepare_records_spec in Hp by done. injection Hp as <-.
  apply list_elem_of_fmap in Hr as ([n row] & -> & Hf).
  apply list_elem_of_filter in Hf as [Hq Hin]. simpl in *.
  destruct (data_rows_position c all_data n row) as [Hlt Hrow];
    [apply Hwf|done|].
  exists row. split_and!; [done..|by apply Is_true_true|done].
Qed.

(** C2. Below the header row, a row yields a record iff it has at least
    max(name_index, email_index) + 1 cells and its email cell is not empty
    once trimmed; the other rows are dropped without error.  So there are
    as many records as qualifying rows, each record carries the sheet
    number and the cells of its row, and the records come in the order of
    their rows. *)
Theorem record_inclusion (all_data : grid) (c : columns) :
  scan_columns all_data = Ok c → missing_columns c = false →
  ∃ records, prepare_records c all_data = Ok records ∧
    (∀ n row, (n, row) ∈ data_rows c all_data →
       (∃ r, r ∈ records ∧ row_number r = n) ↔ qualifies c row = true) ∧
    length records =
      length (filter (λ row, qualifies c row)
                     (drop (Z.to_nat (header_row_num c)) all_data)) ∧
    (∀ r, r ∈ records →
       ∃ row, all_data !! Z.to_nat (row_number r - 1) = Some row ∧
              header_row_num c < row_number r ∧
              qualifies c row = true ∧ r = record_of c (row_number r) row) ∧
    map row_number records =
      (filter (λ p, qualifies c p.2) (data_rows c all_data)).*1 ∧
    StronglySorted Z.lt (map row_number records).
Proof.
  intros Hc Hm. pose proof (scan_columns_well_formed _ _ Hc Hm) as Hwf.
  eexists. split; [by apply prepare_records_spec|].
  assert (map row_number
            (map (λ p, record_of c p.1 p.2)
               (filter (λ p, qualifies c p.2) (data_rows c all_data)))
          = (filter (λ p, qualifies c p.2) (data_rows c all_data)).*1) as Hnum.
  { rewrite <-list_fmap_compose. by apply list_fmap_ext. }
  split_and!.
  - intros n row Hin. split.
    + intros (r & Hr & <-).
      apply list_elem_of_fmap in Hr as ([n' row'] & -> & Hf).
      apply list_elem_of_filter in Hf as [Hq Hin']. simpl in *.
      rewrite (data_rows_functional _ _ _ _ _ Hin Hin').
      by apply Is_true_true.
    + intros Hq. exists (record_of c n row). split; [|done].
      apply list_elem_of_fmap. exists (n, row). split; [done|].
      apply list_elem_of_filter. split; [by apply Is_true_true|done].
  - rewrite length_map. unfold data_rows.
    rewrite <-(enumerate_snd (header_row_num c + 1)
                 (drop (Z.to_nat (header_row_num c)) all_data)) at 2.
    generalize (enumerate (header_row_num c + 1)
                  (drop (Z.to_nat (header_row_num c)) all_data)).
    intros l. induction l as [|[n row] l IH]; [done|].
    rewrite fmap_cons, !filter_cons. simpl.
    destruct (qualifies c row); simpl; by rewrite IH.
  - intros r Hr. eapply prepared_record_row; [done..| |done].
    by apply prepare_records_spec.
  - done.
  - rewrite Hnum. unfold data_rows.
    pose proof (enumerate_sorted (header_row_num c + 1)
                  (drop (Z.to_nat (header_row_num c)) all_data)) as Hs.
    revert Hs.
    generalize (enumerate (header_row_num c + 1)
                  (drop (Z.to_nat (header_row_num c)) all_data)).
    intros l. induction l as [|[n row] l IH]; [constructor|].
    rewrite fmap_cons. intros Hs. apply StronglySorted_inv in Hs as [Hs Hall].
    rewrite filter_cons. simpl. destruct (qualifies c row); simpl; [|by apply IH].
    constructor; [by apply IH|].
    apply Forall_forall. intros m Hm'.
    apply (proj1 (Forall_forall _ _) Hall).
    apply list_elem_of_fmap in Hm' as (p & -> & Hp).
    apply list_elem_of_filter in Hp as [_ Hp].
    apply list_elem_of_fmap. eauto.
Qed.

Lemma record_inclusion_witness :
  ∃ records,
    prepare_records
      {| name_idx := 0; email_idx := 2; status_idx := 5;
         business_idx := -1; header_row_num := 2 |} sheet_ragged = Ok records ∧
    map row_number records = [3; 4; 7] ∧ length records = 3%nat.
Proof.
  destruct (record_inclusion sheet_ragged
              {| name_idx := 0; email_idx := 2; status_idx := 5;
                 business_idx := -1; header_row_num := 2 |}
              eq_refl eq_refl)
    as (records & Hp & _ & Hlen & _ & Hnum & _).
  exists records. split_and!; [exact Hp|exact Hnum|exact Hlen].
Defined.

(** ** [startswith], [occurs] and [replace] *)

Lemma startswith_prefix p s : startswith p s = true ↔ p `prefix_of` s.
Proof.
  revert s. induction p as [|a p IH]; intros s; simpl.
  - split; [intros _; apply prefix_nil|done].
  - destruct s as [|c s].
    + split; [done|]. intros [k Hk]. done.
    + destruct (decide (a = c)) as [->|Hne].
      * rewrite IH. split; [apply prefix_cons|]. by intros ?%prefix_cons_inv_2.
      * split; [done|]. by intros ?%prefix_cons_inv_1.
Qed.

Lemma startswith_app p s : startswith p (p ++ s) = true.
Proof. apply startswith_prefix. by exists s. Qed.

Lemma startswith_false p s : startswith p s = false ↔ ¬ p `prefix_of` s.
Proof. rewrite <-startswith_prefix. by destruct (startswith p s). Qed.

Lemma occurs_infix old s :
  occurs old s = true ↔ ∃ u v, s = u ++ old ++ v.
Proof.
  induction s as [|c s IH]; simpl.
  - rewrite orb_false_r, startswith_prefix. split.
    + intros [k Hk]. by exists [], k.
    + intros (u & v & Hs). destruct u; [by exists v|done].
  - rewrite orb_true_iff, startswith_prefix, IH. split.
    + intros [[k Hk]|(u & v & ->)]; [by exists [], k|by exists (c :: u), v].
    + intros (u & v & Hs). destruct u as [|d u].
      * left. by exists v.
      * right. injection Hs as -> ->. eauto.
Qed.

Lemma occurs_char c s : occurs [c] s = true ↔ c ∈ s.
Proof.
  rewrite occurs_infix. split.
  - intros (u & v & ->). rewrite !elem_of_app, list_elem_of_singleton. auto.
  - intros (u & v & ->)%list_elem_of_split. by exists u, v.
Qed.

Lemma replace_from_skip old new k s :
  replace_from old new k s = replace_from old new O (drop k s).
Proof.
  revert k. induction s as [|c s IH]; intros k; [by destruct k|].
  destruct k as [|k]; [done|]. simpl. apply IH.
Qed.

(** The three equations of [replace] for a non-empty [old]. *)
Lemma replace_nil a old new : replace (a :: old) new [] = [].
Proof. done. Qed.

Lemma replace_match a old new s :
  replace (a :: old) new ((a :: old) ++ s) = new ++ replace (a :: old) new s.
Proof.
  unfold replace. cbn [app replace_from].
  rewrite (startswith_app (a :: old) s : startswith (a :: old) (a :: old ++ s) = true).
  rewrite replace_from_skip. cbn [length pred].
  by rewrite drop_app_length.
Qed.

Lemma replace_step a old new c s :
  startswith (a :: old) (c :: s) = false →
  replace (a :: old) new (c :: s) = c :: replace (a :: old) new s.
Proof. intros H. unfold replace. cbn [replace_from]. by rewrite H. Qed.

Lemma replace_other a old new c s :
  c ≠ a → replace (a :: old) new (c :: s) = c :: replace (a :: old) new s.
Proof.
  intros Hc. apply replace_step. simpl. by destruct (decide (a = c)).
Qed.

(** A stretch of text without the first character of [old] is copied. *)
Lemma replace_free a old new pre s :
  a ∉ pre →
  replace (a :: old) new (pre ++ s) = pre ++ replace (a :: old) new s.
Proof.
  induction pre as [|c pre IH]; intros Hpre; [done|].
  apply not_elem_of_cons in Hpre as [Hc Hpre].
  rewrite <-!app_comm_cons, replace_other by done. by rewrite IH.
Qed.

(** A text without an occurrence of [old] comes back unchanged. *)
Lemma replace_absent a old new s :
  occurs (a :: old) s = false → replace (a :: old) new s = s.
Proof.
  induction s as [|c s IH]; [done|].
  cbn [occurs]. intros [H1 H2]%orb_false_iff.
  rewrite replace_step by done. by rewrite IH.
Qed.

(** The same equations for the one-pass substitution. *)
Lemma substitute_from_skip name business k s :
  substitute_from name business k s = substitute_from name business O (drop k s).
Proof.
  revert k. induction s as [|c s IH]; intros k; [by destruct k|].
  destruct k as [|k]; [done|]. simpl. apply IH.
Qed.

Lemma substitute_name name business s :
  substitute name business (py "{name}" ++ s) = name ++ substitute name business s.
Proof.
  unfold substitute. change (py "{name}" ++ s) with ("{"%char :: drop 1 (py "{name}") ++ s).
  cbn [substitute_from].
  replace (startswith (py "{name}") ("{"%char :: drop 1 (py "{name}") ++ s))
    with true by (symmetry; exact (startswith_app (py "{name}") s)).
  by rewrite substitute_from_skip.
Qed.

Lemma substitute_business name business s :
  substitute name business (py "{business}" ++ s)
  = business ++ substitute name business s.
Proof.
  unfold substitute.
  change (py "{business}" ++ s) with ("{"%char :: drop 1 (py "{business}") ++ s).
  cbn [substitute_from].
  replace (startswith (py "{business}") ("{"%char :: drop 1 (py "{business}") ++ s))
    with true by (symmetry; exact (startswith_app (py "{business}") s)).
  replace (startswith (py "{name}") ("{"%char :: drop 1 (py "{business}") ++ s))
    with false by done.
  by rewrite substitute_from_skip.
Qed.

Lemma substitute_step name business c s :
  startswith (py "{name}") (c :: s) = false →
  startswith (py "{business}") (c :: s) = false →
  substitute name business (c :: s) = c :: substitute name business s.
Proof. intros H1 H2. unfold substitute. cbn [substitute_from]. by rewrite H1, H2. Qed.

(** ** The two replacements against the one-pass substitution *)

Lemma prefix_snoc_not_in (n v : str) c :
  n `prefix_of` v ++ [c] → c ∉ n → n `prefix_of` v.
Proof.
  intros [x Hx] Hc. destruct x as [|y x _] using rev_ind.
  - rewrite app_nil_r in Hx. subst n. destruct Hc.
    apply elem_of_app. right. by apply list_elem_of_singleton.
  - rewrite app_assoc in Hx. apply app_inj_tail in Hx as [-> _]. by exists x.
Qed.

(** If [w] meets no inserted [new] at any offset, a [w] in front of the
    replaced text was already in front of the text. *)
Lemma prefix_of_replace a old new (w t : str) :
  (∀ k, (k < length w)%nat → ¬ overlap new (drop k w)) →
  w `prefix_of` replace (a :: old) new t → w `prefix_of` t.
Proof.
  revert t. induction w as [|x w IH]; intros t Hno Hp; [apply prefix_nil|].
  destruct t as [|d t].
  { rewrite replace_nil in Hp. by apply prefix_nil_inv in Hp. }
  destruct (startswith (a :: old) (d :: t)) eqn:Hs.
  - apply startswith_prefix in Hs as [t' Ht']. rewrite Ht', replace_match in Hp.
    destruct (Hno 0%nat); [simpl; lia|]. unfold overlap. rewrite drop_0.
    destruct (prefix_weak_total (x :: w) new (new ++ replace (a :: old) new t'));
      [done|by apply prefix_app_r|by right|by left].
  - rewrite replace_step in Hp by done.
    pose proof (prefix_cons_inv_1 _ _ _ _ Hp) as ->.
    apply prefix_cons, IH; [|by eapply prefix_cons_inv_2].
    intros k Hk. apply (Hno (S k)). simpl. lia.
Qed.

Lemma plain_name_facts n :
  plain_name n = true ↔
  n ≠ [] ∧ ("{"%char ∉ n) ∧ ("}"%char ∉ n) ∧
  ¬ ∃ u v, py "business" = u ++ n ++ v.
Proof.
  unfold plain_name. rewrite !andb_true_iff, !negb_true_iff.
  rewrite <-!not_true_iff_false.
  change (py "{") with ["{"%char]. change (py "}") with ["}"%char].
  rewrite !occurs_char, occurs_infix.
  split.
  - intros [[[Hn ?] ?] ?]. split_and!; [|done..]. by destruct n.
  - intros (Hn & ? & ? & ?). split_and!; [|done..]. by destruct n.
Qed.

Lemma plain_name_no_overlap n k :
  plain_name n = true → (k < 9)%nat → ¬ overlap n (drop k (py "business}")).
Proof.
  intros (Hn & _ & Hclose & Hpiece)%plain_name_facts Hk.
  change (py "business}") with (py "business" ++ ["}"%char]).
  rewrite drop_app_le by (change (length (py "business")) with 8%nat; lia).
  intros [Hp|Hp].
  - apply prefix_snoc_not_in in Hp as [rest Hrest]; [|done].
    apply Hpiece. exists (take k (py "business")), rest.
    by rewrite <-Hrest, take_drop.
  - apply Hclose. eapply elem_of_prefix; [|exact Hp].
    apply elem_of_app. right. by apply list_elem_of_singleton.
Qed.

(** For a plain name the two replacements of line 143 are the one-pass
    substitution of both placeholders. *)
Lemma render_substitute template name business :
  plain_name name = true →
  render template name business = substitute name business template.
Proof.
  intros Hplain. unfold render.
  induction template as [template IH] using (induction_ltof1 _ length).
  unfold ltof in IH.
  destruct template as [|c t]; [done|].
  destruct (startswith (py "{name}") (c :: t)) eqn:Hn.
  { apply startswith_prefix in Hn as [t' Ht']. rewrite Ht'.
    rewrite substitute_name.
    change (py "{name}") with ("{"%char :: py "name}").
    rewrite replace_match.
    change (py "{business}") with ("{"%char :: py "business}").
    rewrite replace_free by by apply plain_name_facts in Hplain as (_ & ? & _).
    f_equal. apply IH. rewrite Ht', length_app. simpl. lia. }
  destruct (startswith (py "{business}") (c :: t)) eqn:Hb.
  { apply startswith_prefix in Hb as [t' Ht']. rewrite Ht'.
    rewrite substitute_business.
    change (py "{business}" ++ t') with ("{"%char :: py "business}" ++ t').
    change (py "{name}") with ("{"%char :: py "name}").
    rewrite replace_step by done.
    rewrite replace_free by (apply (bool_decide_unpack _); by vm_compute).
    change ("{"%char :: py "business}" ++ replace ("{"%char :: py "name}") name t')
      with (py "{business}" ++ replace ("{"%char :: py "name}") name t').
    change (py "{business}") with ("{"%char :: py "business}").
    rewrite replace_match. f_equal.
    change ("{"%char :: py "business}") with (py "{business}").
    change ("{"%char :: py "name}") with (py "{name}").
    apply IH. rewrite Ht', length_app. simpl. lia. }
  rewrite substitute_step by done.
  change (py "{name}") with ("{"%char :: py "name}") in *.
  rewrite replace_step by done.
  change (py "{business}") with ("{"%char :: py "business}") in *.
  rewrite replace_step.
  - f_equal. apply IH. simpl. lia.
  - apply startswith_false. intros Hp. apply startswith_false in Hb. apply Hb.
    pose proof (prefix_cons_inv_1 _ _ _ _ Hp) as <-.
    apply prefix_cons. apply prefix_cons_inv_2 in Hp.
    eapply prefix_of_replace; [|exact Hp].
    intros k Hk. by apply plain_name_no_overlap.
Qed.

(** ** Prefixes *)

Lemma prefix_app_cases {A} (p l1 l2 : list A) :
  p `prefix_of` l1 ++ l2 →
  p `prefix_of` l1 ∨ ∃ p', p = l1 ++ p' ∧ p' `prefix_of` l2.
Proof.
  revert p. induction l1 as [|x l1 IH]; intros p Hp.
  - right. by exists p.
  - destruct p as [|y p]; [left; apply prefix_nil|].
    rewrite <-app_comm_cons in Hp.
    pose proof (prefix_cons_inv_1 _ _ _ _ Hp) as ->.
    apply prefix_cons_inv_2, IH in Hp as [Hp|(p' & -> & Hp)].
    + left. by apply prefix_cons.
    + right. by exists p'.
Qed.

Lemma writes_prefix p tr : p `prefix_of` tr → writes p `prefix_of` writes tr.
Proof. intros [k ->]. unfold writes. rewrite omap_app. by eexists. Qed.

Lemma prefix_singleton {A} (p : list A) x : p `prefix_of` [x] → p = [] ∨ p = [x].
Proof.
  destruct p as [|y p]; [by left|]. intros Hp. right.
  pose proof (prefix_cons_inv_1 _ _ _ _ Hp) as ->.
  apply prefix_cons_inv_2, prefix_nil_inv in Hp as ->. done.
Qed.

(** ** Setting the headers of a message *)

Section Headers.

Variable header : str → str → option exn.
Variables (user subject body : str).

Local Abbreviation message := (message_of user subject body).
Local Abbreviation build := (build_message header user subject body).
Local Abbreviation through := (completed header user subject body).

(** Lines 144-148 either raise or leave the message with the four values. *)
Lemma build_message_cases r : build r = Ok (message r) ∨ ∃ e, build r = Raise e.
Proof.
  unfold build_message.
  destruct (set_header header (py "From") user) as [[]|e]; [|right; by exists e].
  destruct (set_header header (py "To") _) as [[]|e]; [|right; by exists e].
  destruct (set_header header (py "Subject") _) as [[]|e]; [|right; by exists e].
  by left.
Qed.

Lemma build_message_inv r m : build r = Ok m → m = message r.
Proof.
  intros H. destruct (build_message_cases r) as [H'|[e H']];
    rewrite H' in H; congruence.
Qed.

Lemma accepted_true r :
  accepted header user subject body r = true ↔ build r = Ok (message r).
Proof.
  unfold accepted. destruct (build_message_cases r) as [H|[e H]]; rewrite H.
  - done.
  - split; [done|congruence].
Qed.

Lemma accepted_false r :
  accepted header user subject body r = false ↔ ∃ e, build r = Raise e.
Proof.
  unfold accepted. destruct (build_message_cases r) as [H|[e H]]; rewrite H.
  - split; [done|]. by intros [? ?].
  - split; [by exists e|done].
Qed.



Lemma completed_skip r rest :
  already_sent r = true → through (r :: rest) = r :: through rest.
Proof. intros H. cbn [completed]. by rewrite H. Qed.

Lemma completed_accept r rest m :
  build r = Ok m → through (r :: rest) = r :: through rest.
Proof.
  intros H. cbn [completed].
  assert (accepted header user subject body r = true) as ->; [|by rewrite orb_true_r].
  unfold accepted. by rewrite H.
Qed.

Lemma completed_refused r rest e :
  already_sent r = false → build r = Raise e → through (r :: rest) = [].
Proof.
  intros Hs H. cbn [completed]. rewrite Hs.
  assert (accepted header user subject body r = false) as ->; [|done].
  unfold accepted. by rewrite H.
Qed.

Lemma completed_prefix records : through records `prefix_of` records.
Proof.
  induction records as [|r rest IH]; [done|]. cbn [completed].
  destruct (_ || _); [by apply prefix_cons|apply prefix_nil].
Qed.

Lemma completed_elem r records : r ∈ through records → r ∈ records.
Proof. intros H. by eapply elem_of_prefix; [|apply completed_prefix]. Qed.

Lemma completed_length records :
  (length (through records) ≤ length records)%nat.
Proof. apply prefix_length, completed_prefix. Qed.

(** Every record passes exactly when no record is both unsent and
    refused. *)
Lemma completed_all records :
  through records = records ↔
  ∀ r, r ∈ records →
    already_sent r = true ∨ accepted header user subject body r = true.
Proof.
  induction records as [|r rest IH].
  { split; [by intros _ r ?%elem_of_nil|done]. }
  cbn [completed]. destruct (_ || _) eqn:Hp.
  - apply orb_true_iff in Hp. split.
    + intros [= H] x [->|Hx]%elem_of_cons; [done|]. by apply IH.
    + intros H. f_equal. apply IH. intros x Hx. apply H. by right.
  - apply orb_false_iff in Hp as [Hs Ha]. split; [done|].
    intros H. destruct (H r) as [?|?]; [by left|congruence..].
Qed.

(** The record behind the completed ones, when there is one, is unsent and
    refused. *)
Lemma completed_next records :
  through records = records ∨
  ∃ r e, records !! length (through records) = Some r ∧
         already_sent r = false ∧ build r = Raise e.
Proof.
  induction records as [|r rest IH]; [by left|].
  cbn [completed]. destruct (_ || _) eqn:Hp.
  - destruct IH as [IH|(x & e & Hx & Hs & Hb)].
    + left. by rewrite IH.
    + right. by exists x, e.
  - right. apply orb_false_iff in Hp as [Hs Ha].
    apply accepted_false in Ha as [e He]. by exists r, e.
Qed.

Lemma completed_app_all rs1 rs2 :
  through rs1 = rs1 → through (rs1 ++ rs2) = rs1 ++ through rs2.
Proof.
  induction rs1 as [|r rs1 IH]; [done|]. cbn [completed app].
  destruct (_ || _); [|done]. intros [= H]. by rewrite IH.
Qed.

Lemma completed_app_stop rs1 rs2 :
  through rs1 ≠ rs1 → through (rs1 ++ rs2) = through rs1.
Proof.
  induction rs1 as [|r rs1 IH]; [done|]. cbn [completed app].
  destruct (_ || _); [|done]. intros H. f_equal. apply IH. congruence.
Qed.

Lemma completed_idemp records : through (through records) = through records.
Proof.
  induction records as [|r rest IH]; [done|]. cbn [completed].
  destruct (_ || _) eqn:Hp; [|done]. cbn [completed]. by rewrite Hp, IH.
Qed.

End Headers.

(** ** One turn and the loop, for any worksheet *)

Section Turn.

Variable header : str → str → option exn.
Context {smtp : Type}.
Variable send : smtp → EmailMessage → smtp * option str.
Variable update : grid → Z → Z → str → grid * option str.
Variables (user subject body : str).
Variable sidx : Z.

Local Abbreviation message := (message_of user subject body).
Local Abbreviation build := (build_message header user subject body).
Local Abbreviation one := (send_one header send update user subject body sidx).
Local Abbreviation loop := (send_loop header send update user subject body sidx).

Lemma sends_app tr1 tr2 : sends (tr1 ++ tr2) = sends tr1 ++ sends tr2.
Proof. apply omap_app. Qed.

Lemma writes_app tr1 tr2 : writes (tr1 ++ tr2) = writes tr1 ++ writes tr2.
Proof. apply omap_app. Qed.


Lemma apply_writes_app sh ws1 ws2 :
  apply_writes sh (ws1 ++ ws2) = apply_writes (apply_writes sh ws1) ws2.
Proof. apply foldl_app. Qed.


Lemma reported_app tr1 tr2 : reported (tr1 ++ tr2) = reported tr1 ++ reported tr2.
Proof. apply omap_app. Qed.

Lemma sends_closing x : sends (closing x) = [].
Proof. by destruct x. Qed.

Lemma writes_closing x : writes (closing x) = [].
Proof. by destruct x. Qed.

Lemma sleeps_closing x : sleeps (closing x) = 0%nat.
Proof. by destruct x. Qed.

(** A skipped record: nothing but two lines on the page. *)
Lemma send_one_skip total idx r w :
  already_sent r = true →
  one total idx r w =
    (w, None, [Page (Progress (idx + 1) total); Page (Skipping (strip (Name r)))]).
Proof. intros H. unfold send_one. by rewrite H. Qed.

(** A record whose message cannot be built: the script ends there, after
    the progress update and the "Sending" line. *)
Lemma send_one_refused total idx r w e :
  already_sent r = false → build r = Raise e →
  one total idx r w =
    (w, Some e,
     [Page (Progress (idx + 1) total); Page (Sending (strip (Name r)))]).
Proof. intros H Hb. unfold send_one. by rewrite H, Hb. Qed.

(** The turn of a record whose message has been built, case by case: the
    transport accepts or raises, and each write returns or raises. *)
Lemma send_one_built total idx r w :
  already_sent r = false → build r = Ok (message r) →
  let srv := (send w.1 (message r)).1 in
  let row := row_number r in
  let col := sidx + 1 in
  let opening := [Page (Progress (idx + 1) total);
                  Page (Sending (strip (Name r))); SendMessage (message r)] in
  one total idx r w =
    match (send w.1 (message r)).2 with
    | None =>
        let sent := update w.2 row col (py "Sent") in
        match sent.2 with
        | None =>
            ((srv, sent.1), None,
             opening ++ [UpdateCell row col (py "Sent");
                         Page (SentTo (strip (Name r)) (strip (Email r))); Sleep])
        | Some e =>
            let failed := update sent.1 row col (py "Failed") in
            match failed.2 with
            | None =>
                ((srv, failed.1), None,
                 opening ++ [UpdateCell row col (py "Sent");
                             UpdateCell row col (py "Failed");
                             Page (FailedTo (strip (Name r)) e); Sleep])
            | Some e2 =>
                ((srv, failed.1), Some (ApiError e2),
                 opening ++ [UpdateCell row col (py "Sent");
                             UpdateCell row col (py "Failed")])
            end
        end
    | Some e =>
        let failed := update w.2 row col (py "Failed") in
        match failed.2 with
        | None =>
            ((srv, failed.1), None,
             opening ++ [UpdateCell row col (py "Failed");
                         Page (FailedTo (strip (Name r)) e); Sleep])
        | Some e2 =>
            ((srv, failed.1), Some (ApiError e2),
             opening ++ [UpdateCell row col (py "Failed")])
        end
    end.
Proof.
  intros H Hb. unfold send_one. rewrite H, Hb. cbv zeta.
  destruct (send w.1 (message r)) as [srv [e|]]; cbn [fst snd].
  - destruct (update w.2 _ _ (py "Failed")) as [sh2 [e2|]]; done.
  - destruct (update w.2 _ _ (py "Sent")) as [sh1 [e1|]]; cbn [fst snd]; [|done].
    destruct (update sh1 _ _ (py "Failed")) as [sh2 [e2|]]; done.
Qed.

Lemma send_loop_cons total idx r rest w :
  loop total idx (r :: rest) w =
    match (one total idx r w).1.2 with
    | Some x => one total idx r w
    | None =>
        ((loop total (idx + 1) rest (one total idx r w).1.1).1,
         (one total idx r w).2 ++
         (loop total (idx + 1) rest (one total idx r w).1.1).2)
    end.
Proof.
  cbn [send_loop]. destruct (send_one _ _ _ _ _ _ _ _ _ _ _) as [[w1 [x|]] ev1].
  - done.
  - cbn [fst snd]. by destruct (send_loop _ _ _ _ _ _ _ _ _ _ _) as [[w2 y] ev2].
Qed.

Lemma send_loop_single total idx r w :
  (loop total idx [r] w).2 = (one total idx r w).2.
Proof.
  rewrite send_loop_cons.
  destruct (one total idx r w) as [[w1 [x|]] ev1]; cbn [send_loop fst snd];
    [done|apply app_nil_r].
Qed.

(** The loop over a concatenation is the loop over the first part, and if
    that raised nothing the loop over the second, started where the first
    ended. *)
Lemma send_loop_app total idx rs1 rs2 w :
  loop total idx (rs1 ++ rs2) w =
    match (loop total idx rs1 w).1.2 with
    | Some x => loop total idx rs1 w
    | None =>
        ((loop total (idx + len rs1) rs2 (loop total idx rs1 w).1.1).1,
         (loop total idx rs1 w).2 ++
         (loop total (idx + len rs1) rs2 (loop total idx rs1 w).1.1).2)
    end.
Proof.
  revert idx w. induction rs1 as [|r rs1 IH]; intros idx w.
  - cbn [app send_loop fst snd]. rewrite Z.add_0_r.
    by destruct (send_loop _ _ _ _ _ _ _ _ _ _ _) as [[w2 y] ev2].
  - rewrite <-app_comm_cons, !send_loop_cons.
    destruct (one total idx r w) as [[w1 [x|]] ev1]; cbn [fst snd]; [done|].
    rewrite IH.
    replace (idx + 1 + len rs1) with (idx + len (r :: rs1))
      by (unfold len; simpl length; lia).
    destruct (loop total (idx + 1) rs1 w1) as [[w2 [y|]] ev2]; cbn [fst snd];
      [done|].
    by rewrite app_assoc.
Qed.

(** The trace of the first [N] records opens the trace of all of them. *)
Lemma send_loop_take_prefix total idx records w N :
  (loop total idx (take N records) w).2 `prefix_of` (loop total idx records w).2.
Proof.
  rewrite <-(take_drop N records) at 2. rewrite send_loop_app.
  destruct (loop total idx (take N records) w) as [[w1 [x|]] ev1]; cbn [fst snd].
  - done.
  - by apply prefix_app_r.
Qed.

(** Nothing but the two literals is ever written, and a turn writes in the
    row of its record only. *)
Lemma send_one_literals total idx r w :
  Forall (λ x, x.1 = (row_number r, sidx + 1) ∧
               (x.2 = py "Sent" ∨ x.2 = py "Failed"))
    (writes (one total idx r w).2).
Proof.
  destruct (already_sent r) eqn:Hs.
  { rewrite send_one_skip by done. constructor. }
  destruct (build_message_cases header user subject body r) as [Hb|[e Hb]].
  2: { rewrite (send_one_refused _ _ _ _ e) by done. constructor. }
  rewrite send_one_built by done. cbv zeta.
  repeat match goal with
         | |- context [match ?x with Some _ => _ | None => _ end] => destruct x
         end; cbn [snd writes omap app];
    repeat first [exact I | apply Forall_nil
                 |apply Forall_cons; split; [split; [reflexivity|by auto]|]].
Qed.

Lemma send_loop_literals total idx records w :
  Forall (λ x, x.2 = py "Sent" ∨ x.2 = py "Failed")
    (writes (loop total idx records w).2).
Proof.
  revert idx w. induction records as [|r rest IH]; intros idx w; [constructor|].
  rewrite send_loop_cons.
  pose proof (send_one_literals total idx r w) as H1.
  assert (Forall (λ x, x.2 = py "Sent" ∨ x.2 = py "Failed")
            (writes (one total idx r w).2)) as H2.
  { eapply Forall_impl; [exact H1|]. by intros x [_ ?]. }
  destruct (one total idx r w) as [[w1 [x|]] ev1]; cbn [fst snd] in *; [done|].
  rewrite writes_app. apply Forall_app. split; [done|apply IH].
Qed.

(** Every cell write of the loop is the write of an unsent record of the
    list, in its row and the status column. *)
Lemma send_loop_writes_elem total idx records w x :
  x ∈ writes (loop total idx records w).2 →
  ∃ r, r ∈ records ∧ already_sent r = false ∧
       x.1 = (row_number r, sidx + 1) ∧ (x.2 = py "Sent" ∨ x.2 = py "Failed").
Proof.
  revert idx w. induction records as [|r rest IH]; intros idx w.
  { by intros ?%elem_of_nil. }
  rewrite send_loop_cons.
  assert (x ∈ writes (one total idx r w).2 →
          ∃ r0, r0 ∈ r :: rest ∧ already_sent r0 = false ∧
                x.1 = (row_number r0, sidx + 1) ∧
                (x.2 = py "Sent" ∨ x.2 = py "Failed")) as Hone.
  { intros Hx. exists r.
    pose proof (proj1 (Forall_forall _ _) (send_one_literals total idx r w) x Hx)
      as [? ?].
    split_and!; [by left| |done..].
    destruct (already_sent r) eqn:Hs; [|done].
    rewrite send_one_skip in Hx by done. by apply elem_of_nil in Hx. }
  destruct (one total idx r w) as [[w1 [e|]] ev1]; cbn [fst snd] in *; [done|].
  rewrite writes_app, elem_of_app. intros [H|H]; [by apply Hone|].
  destruct (IH _ _ H) as (r0 & Hr0 & ?). exists r0. split; [by right|done].
Qed.

(** The messages handed to the transport are messages of unsent records
    of the list. *)
Lemma send_one_sends total idx r w :
  sends (one total idx r w).2 = [] ∨
  (already_sent r = false ∧ build r = Ok (message r) ∧
   sends (one total idx r w).2 = [message r]).
Proof.
  destruct (already_sent r) eqn:Hs.
  { rewrite send_one_skip by done. by left. }
  destruct (build_message_cases header user subject body r) as [Hb|[e Hb]].
  2: { rewrite (send_one_refused _ _ _ _ e) by done. by left. }
  right. split_and!; [done..|].
  rewrite send_one_built by done. cbv zeta.
  repeat match goal with
         | |- context [match ?x with Some _ => _ | None => _ end] => destruct x
         end; done.
Qed.

Lemma send_loop_sends_elem total idx records w m :
  m ∈ sends (loop total idx records w).2 →
  ∃ r, r ∈ records ∧ already_sent r = false ∧ build r = Ok m ∧ m = message r.
Proof.
  revert idx w. induction records as [|r rest IH]; intros idx w.
  { by intros ?%elem_of_nil. }
  rewrite send_loop_cons.
  pose proof (send_one_sends total idx r w) as H1.
  assert (m ∈ sends (one total idx r w).2 →
          ∃ r0, r0 ∈ r :: rest ∧ already_sent r0 = false ∧ build r0 = Ok m ∧
                m = message r0) as Hone.
  { destruct H1 as [->|(Hs & Hb & ->)]; [by intros ?%elem_of_nil|].
    intros ->%list_elem_of_singleton. exists r. split_and!; [by left|done..]. }
  destruct (one total idx r w) as [[w1 [x|]] ev1]; cbn [fst snd] in *; [done|].
  rewrite sends_app, elem_of_app. intros [H|H]; [by apply Hone|].
  destruct (IH _ _ H) as (r0 & Hr0 & ?). exists r0. split; [by right|done].
Qed.

(** The loop itself neither connects nor quits, and what it shows of a
    skip is the skip of a record marked as sent. *)
Lemma send_one_events total idx r w ev :
  ev ∈ (one total idx r w).2 →
  ev ≠ SmtpQuit ∧ ev ≠ SmtpConnect ∧
  ∀ n, ev = Page (Skipping n) → already_sent r = true.
Proof.
  destruct (already_sent r) eqn:Hs.
  { rewrite send_one_skip by done.
    intros [i Hi]%list_elem_of_lookup.
    repeat (destruct i as [|i]; [injection Hi as <-; by split_and!|]). done. }
  destruct (build_message_cases header user subject body r) as [Hb|[e Hb]].
  2: { rewrite (send_one_refused _ _ _ _ e) by done.
       intros [i Hi]%list_elem_of_lookup.
       repeat (destruct i as [|i]; [injection Hi as <-; by split_and!|]). done. }
  rewrite send_one_built by done. cbv zeta.
  repeat match goal with
         | |- context [match ?x with Some _ => _ | None => _ end] => destruct x
         end; cbn [snd app];
    intros [i Hi]%list_elem_of_lookup;
    repeat (destruct i as [|i]; [injection Hi as <-; by split_and!|]); done.
Qed.

Lemma send_loop_events total idx records w ev :
  ev ∈ (loop total idx records w).2 →
  ev ≠ SmtpQuit ∧ ev ≠ SmtpConnect ∧
  ∀ n, ev = Page (Skipping n) → ∃ r, r ∈ records ∧ already_sent r = true.
Proof.
  revert idx w. induction records as [|r rest IH]; intros idx w.
  { by intros ?%elem_of_nil. }
  rewrite send_loop_cons.
  assert (ev ∈ (one total idx r w).2 →
          ev ≠ SmtpQuit ∧ ev ≠ SmtpConnect ∧
          ∀ n, ev = Page (Skipping n) →
               ∃ r0, r0 ∈ r :: rest ∧ already_sent r0 = true) as Hone.
  { intros (? & ? & Hs)%send_one_events. split_and!; [done..|].
    intros n Hn. exists r. split; [by left|by eapply Hs]. }
  destruct (one total idx r w) as [[w1 [x|]] ev1]; cbn [fst snd] in *; [done|].
  rewrite elem_of_app. intros [H|H]; [by apply Hone|].
  destruct (IH _ _ H) as (? & ? & Hs). split_and!; [done..|].
  intros n Hn. destruct (Hs n Hn) as (r0 & ? & ?). exists r0. split; [by right|done].
Qed.

(** The progress bar moves once in every turn that begins. *)
Lemma send_one_progress total idx r w :
  progress (one total idx r w).2 = [(idx + 1, total)].
Proof.
  destruct (already_sent r) eqn:Hs.
  { by rewrite send_one_skip. }
  destruct (build_message_cases header user subject body r) as [Hb|[e Hb]].
  2: { by rewrite (send_one_refused _ _ _ _ e). }
  rewrite send_one_built by done. cbv zeta.
  repeat match goal with
         | |- context [match ?x with Some _ => _ | None => _ end] => destruct x
         end; done.
Qed.

End Turn.

(** ** One turn and the loop, on a worksheet whose writes return *)

Section Steps.

Variable header : str → str → option exn.
Context {smtp : Type}.
Variable send : smtp → EmailMessage → smtp * option str.
Variables (user subject body : str).
Variable sidx : Z.

Local Abbreviation message := (message_of user subject body).
Local Abbreviation build := (build_message header user subject body).
Local Abbreviation one :=
  (send_one header send reliable_sheet user subject body sidx).
Local Abbreviation loop :=
  (send_loop header send reliable_sheet user subject body sidx).

(** An attempted record: one message, one cell write with the literal of
    the answer, one delay, in that order. *)
Lemma send_one_attempt total idx r w :
  already_sent r = false → build r = Ok (message r) →
  one total idx r w =
    (((send w.1 (message r)).1,
      set_cell w.2 (row_number r) (sidx + 1)
        (status_literal (send w.1 (message r)).2)),
     None,
     [Page (Progress (idx + 1) total); Page (Sending (strip (Name r)));
      SendMessage (message r);
      UpdateCell (row_number r) (sidx + 1)
        (status_literal (send w.1 (message r)).2);
      Page (match (send w.1 (message r)).2 with
            | None => SentTo (strip (Name r)) (strip (Email r))
            | Some e => FailedTo (strip (Name r)) e
            end);
      Sleep]).
Proof.
  intros H Hb. rewrite send_one_built by done. cbv zeta.
  unfold reliable_sheet. cbn [fst snd].
  destruct (send w.1 (message r)) as [srv [e|]]; done.
Qed.

Lemma send_loop_skip total idx r rest w :
  already_sent r = true →
  loop total idx (r :: rest) w =
    ((loop total (idx + 1) rest w).1,
     [Page (Progress (idx + 1) total); Page (Skipping (strip (Name r)))]
     ++ (loop total (idx + 1) rest w).2).
Proof. intros H. rewrite send_loop_cons. by rewrite send_one_skip. Qed.

Lemma send_loop_attempt total idx r rest w :
  already_sent r = false → build r = Ok (message r) →
  loop total idx (r :: rest) w =
    ((loop total (idx + 1) rest
        ((send w.1 (message r)).1,
         set_cell w.2 (row_number r) (sidx + 1)
           (status_literal (send w.1 (message r)).2))).1,
     [Page (Progress (idx + 1) total); Page (Sending (strip (Name r)));
      SendMessage (message r);
      UpdateCell (row_number r) (sidx + 1)
        (status_literal (send w.1 (message r)).2);
      Page (match (send w.1 (message r)).2 with
            | None => SentTo (strip (Name r)) (strip (Email r))
            | Some e => FailedTo (strip (Name r)) e
            end);
      Sleep]
     ++ (loop total (idx + 1) rest
           ((send w.1 (message r)).1,
            set_cell w.2 (row_number r) (sidx + 1)
              (status_literal (send w.1 (message r)).2))).2).
Proof. intros H Hb. rewrite send_loop_cons. by rewrite send_one_attempt. Qed.

Lemma send_loop_refused total idx r rest w e :
  already_sent r = false → build r = Raise e →
  loop total idx (r :: rest) w =
    (w, Some e,
     [Page (Progress (idx + 1) total); Page (Sending (strip (Name r)))]).
Proof.
  intros H Hb. rewrite send_loop_cons.
  by rewrite (send_one_refused _ _ _ _ _ _ _ _ _ _ _ e).
Qed.

Lemma attempted_cons r rest :
  attempted (r :: rest) =
    if already_sent r then attempted rest else r :: attempted rest.
Proof.
  unfold attempted. rewrite filter_cons.
  destruct (already_sent r); by case_decide.
Qed.

Lemma attempted_skip r rest :
  already_sent r = true → attempted (r :: rest) = attempted rest.
Proof. intros H. by rewrite attempted_cons, H. Qed.

Lemma attempted_keep r rest :
  already_sent r = false → attempted (r :: rest) = r :: attempted rest.
Proof. intros H. by rewrite attempted_cons, H. Qed.

Lemma attempted_elem r records :
  r ∈ attempted records ↔ already_sent r = false ∧ r ∈ records.
Proof. unfold attempted. by rewrite list_elem_of_filter. Qed.

Lemma attempted_all records :
  (∀ r, r ∈ records → already_sent r = false) → attempted records = records.
Proof.
  induction records as [|x rest IH]; intros H; [done|].
  rewrite attempted_keep by (apply H; by left).
  f_equal. apply IH. intros r Hr. apply H. by right.
Qed.

Lemma started_pass r rest :
  completed header user subject body (r :: rest)
  = r :: completed header user subject body rest →
  started header user subject body (r :: rest)
  = r :: started header user subject body rest.
Proof. intros H. unfold started. by rewrite H. Qed.

Lemma started_stop r rest :
  completed header user subject body (r :: rest) = [] →
  started header user subject body (r :: rest) = [r].
Proof. intros H. unfold started. rewrite H. cbn [length take]. by rewrite take_0. Qed.

End Steps.

(** The three cases of a turn of the loop over [r :: _]: skipped, attempted,
    or raising before the attempt. *)
Ltac by_turn r :=
  let Hs := fresh "Hturn" in
  let Hb := fresh "Hbuilt" in
  let x := fresh "x" in
  destruct (already_sent r) eqn:Hs;
  [ rewrite send_loop_skip by exact Hs;
    rewrite ?(completed_skip _ _ _ _ r _ Hs);
    rewrite ?(started_pass _ _ _ _ r _ (completed_skip _ _ _ _ r _ Hs));
    rewrite ?attempted_skip by exact Hs
  | match goal with
    | |- context [send_loop ?header _ _ ?user ?subject ?body _ _ _ (r :: _) _] =>
        destruct (build_message_cases header user subject body r) as [Hb|[x Hb]]
    end;
    [ rewrite send_loop_attempt by first [exact Hs|exact Hb];
      rewrite ?(completed_accept _ _ _ _ r _ _ Hb);
      rewrite ?(started_pass _ _ _ _ r _ (completed_accept _ _ _ _ r _ _ Hb));
      rewrite ?attempted_keep by exact Hs
    | rewrite (send_loop_refused _ _ _ _ _ _ _ _ _ _ _ _ Hs Hb);
      rewrite ?(completed_refused _ _ _ _ r _ _ Hs Hb);
      rewrite ?(started_stop _ _ _ _ r _ (completed_refused _ _ _ _ r _ _ Hs Hb)) ] ].

Section Loop.

Variable header : str → str → option exn.
Context {smtp : Type}.
Variable send : smtp → EmailMessage → smtp * option str.
Variables (user subject body : str).
Variable sidx : Z.

Local Abbreviation message := (message_of user subject body).
Local Abbreviation build := (build_message header user subject body).
Local Abbreviation through := (completed header user subject body).
Local Abbreviation one :=
  (send_one header send reliable_sheet user subject body sidx).
Local Abbreviation loop :=
  (send_loop header send reliable_sheet user subject body sidx).

(** The transport receives the messages of the attempted records among the
    completed ones, one each, in the order of the records. *)
Lemma send_loop_sends total idx records w :
  sends (loop total idx records w).2 = map message (attempted (through records)).
Proof.
  revert idx w. induction records as [|r rest IH]; intros idx w; [done|].
  by_turn r; cbn [snd]; rewrite ?sends_app, ?IH; done.
Qed.


(** Each of these records gets one cell write, at its row and the status
    column, with the literal of the answer the transport gave to its
    message. *)
Lemma send_loop_writes total idx records w :
  writes (loop total idx records w).2 =
    zip_with (λ r a, (row_number r, sidx + 1, status_literal a))
      (attempted (through records))
      (answers send w.1 (map message (attempted (through records)))).
Proof.
  revert idx w. induction records as [|r rest IH]; intros idx w; [done|].
  by_turn r; cbn [snd]; rewrite ?writes_app, ?IH; [done| |done].
  cbn [fst snd map answers].
  by destruct (send w.1 (message r)) as [srv a].
Qed.

Lemma answers_length server msgs :
  length (answers send server msgs) = length msgs.
Proof.
  revert server. induction msgs as [|m msgs IH]; intros server; [done|].
  simpl. destruct (send server m) as [srv a]. simpl. by rewrite IH.
Qed.

(** The worksheet at the end is the worksheet at the start with the cell
    writes of the trace applied in order. *)
Lemma send_loop_sheet total idx records w :
  (loop total idx records w).1.1.2 =
    apply_writes w.2 (writes (loop total idx records w).2).
Proof.
  revert idx w. induction records as [|r rest IH]; intros idx w; [done|].
  by_turn r; cbn [fst snd]; rewrite ?writes_app, ?apply_writes_app, ?IH; done.
Qed.

(** The cell writes of one turn: none, or the one of its record. *)
Lemma send_one_writes total idx r w :
  writes (one total idx r w).2 = [] ∨
  ∃ v, writes (one total idx r w).2 = [(row_number r, sidx + 1, v)].
Proof.
  destruct (already_sent r) eqn:Hs.
  { rewrite send_one_skip by done. by left. }
  destruct (build_message_cases header user subject body r) as [Hb|[e Hb]].
  - rewrite send_one_attempt by done. right. by eexists.
  - rewrite (send_one_refused _ _ _ _ _ _ _ _ _ _ _ e) by done. by left.
Qed.

(** Whatever part of the trace has been produced, the cell writes in it
    are those of the loop over the first [N] records, for some [N]. *)
Lemma writes_of_prefix total idx records w p :
  p `prefix_of` (loop total idx records w).2 →
  ∃ N, (N ≤ length records)%nat ∧
       writes p = writes (loop total idx (take N records) w).2.
Proof.
  revert idx w p. induction records as [|r rest IH]; intros idx w p Hp.
  - apply prefix_nil_inv in Hp as ->. by exists 0%nat.
  - rewrite send_loop_cons in Hp.
    assert (p `prefix_of` (one total idx r w).2 →
            ∃ N, (N ≤ length (r :: rest))%nat ∧
                 writes p = writes (loop total idx (take N (r :: rest)) w).2)
      as Hone.
    { intros Hp1. apply writes_prefix in Hp1.
      destruct (send_one_writes total idx r w) as [Hw|[v Hw]]; rewrite Hw in Hp1.
      * apply prefix_nil_inv in Hp1. exists 0%nat. split; [simpl; lia|done].
      * apply prefix_singleton in Hp1 as [Hp1|Hp1].
        -- exists 0%nat. split; [simpl; lia|done].
        -- exists 1%nat. split; [simpl; lia|].
           cbn [take]. rewrite take_0, send_loop_single. congruence. }
    destruct (one total idx r w) as [[w1 [x|]] ev1] eqn:Hturn;
      cbn [fst snd] in *; [by apply Hone|].
    apply prefix_app_cases in Hp as [Hp|(p' & -> & Hp)]; [by apply Hone|].
    destruct (IH _ _ _ Hp) as (N & HN & Hw).
    exists (S N). split; [simpl; lia|].
    cbn [take]. rewrite send_loop_cons, Hturn. cbn [fst snd].
    by rewrite !writes_app, Hw.
Qed.

(** A cell write comes right after a send. *)
Lemma write_follows_send total idx records w i r c v :
  (loop total idx records w).2 !! i = Some (UpdateCell r c v) →
  ∃ j m, i = S j ∧ (loop total idx records w).2 !! j = Some (SendMessage m).
Proof.
  revert idx w i. induction records as [|x rest IH]; intros idx w i; [done|].
  by_turn x; cbn [snd]; intros Hi.
  - destruct i as [|[|i]]; [done..|].
    cbn [app lookup list_lookup] in Hi |- *.
    destruct (IH _ _ _ Hi) as (j & m & -> & Hm). by exists (S (S j)), m.
  - destruct i as [|[|[|[|[|[|i]]]]]]; try done.
    + by exists 2%nat, (message x).
    + cbn [app lookup list_lookup] in Hi |- *.
      destruct (IH _ _ _ Hi) as (j & m & -> & Hm).
      by exists (S (S (S (S (S (S j)))))), m.
  - by destruct i as [|[|i]].
Qed.

(** The rows written are those of the attempted records among the
    completed ones, in order. *)
Lemma send_loop_written_rows total idx records w :
  (writes (loop total idx records w).2).*1.*1
  = map row_number (attempted (through records)).
Proof.
  revert idx w. induction records as [|r rest IH]; intros idx w; [done|].
  by_turn r; cbn [snd]; rewrite ?writes_app, ?fmap_app, ?IH; done.
Qed.

(** The loop raises exactly when some record is not completed, and then
    what it raises is what the headers of the first such record raise. *)
Lemma send_loop_finished total idx records w :
  through records = records → (loop total idx records w).1.2 = None.
Proof.
  revert idx w. induction records as [|r rest IH]; intros idx w; [done|].
  by_turn r; cbn [fst snd]; intros H; [| |done].
  - apply IH. congruence.
  - apply IH. congruence.
Qed.

Lemma send_loop_crashed total idx records w :
  through records ≠ records →
  ∃ r e, records !! length (through records) = Some r ∧
         already_sent r = false ∧ build r = Raise e ∧
         (loop total idx records w).1.2 = Some e.
Proof.
  revert idx w. induction records as [|r rest IH]; intros idx w; [done|].
  by_turn r; cbn [fst snd length lookup list_lookup]; intros H.
  - apply IH. congruence.
  - apply IH. congruence.
  - by exists r, x.
Qed.

Lemma send_loop_raised total idx records w :
  (loop total idx records w).1.2 = None ↔ through records = records.
Proof.
  revert idx w. induction records as [|r rest IH]; intros idx w; [done|].
  by_turn r; cbn [fst snd]; rewrite ?IH; [| |done].
  - split; [congruence|by intros [= ?]].
  - split; [congruence|by intros [= ?]].
Qed.


(** One line of the log for every completed record. *)
Lemma send_loop_reported total idx records w :
  reported (loop total idx records w).2
  = map (λ r, (strip (Name r), negb (already_sent r))) (through records).
Proof.
  revert idx w. induction records as [|r rest IH]; intros idx w; [done|].
  by_turn r; cbn [snd].
  - rewrite reported_app, IH. cbn [map]. by rewrite Hturn.
  - rewrite reported_app, IH. cbn [map]. rewrite Hturn.
    by destruct (send w.1 (message r)).2.
  - done.
Qed.

End Loop.

(** ** The script as a whole *)

Section Run.

Variable header : str → str → option exn.
Context {smtp : Type}.
Variable send : smtp → EmailMessage → smtp * option str.
Variable update : grid → Z → Z → str → grid * option str.
Variables (user subject body : str).

Local Abbreviation message := (message_of user subject body).
Local Abbreviation build := (build_message header user subject body).
Local Abbreviation through := (completed header user subject body).
Local Abbreviation loop := (send_loop header send update user subject body).

(** With a header row, at least one record and a session, the script runs
    the loop over the records; it reaches its last lines when the loop
    raised nothing. *)
Lemma run_loop all_data c records server :
  scan_columns all_data = Ok c → missing_columns c = false →
  prepare_records c all_data = Ok records → records ≠ [] →
  run header send update user subject body all_data (inr server) =
    {| ending :=
         ending_of (loop (status_idx c) (len records) 0 records
                      (server, all_data)).1.2;
       final_sheet :=
         (loop (status_idx c) (len records) 0 records (server, all_data)).1.1.2;
       events :=
         [Page (FoundContacts (len records)); Page (LoggingIn user);
          SmtpConnect; Page ProgressBar]
         ++ (loop (status_idx c) (len records) 0 records (server, all_data)).2
         ++ closing (loop (status_idx c) (len records) 0 records
                       (server, all_data)).1.2 |}.
Proof.
  intros Hc Hm Hp Hne. unfold run. rewrite Hc, Hm, Hp.
  destruct records as [|r rest]; [done|].
  destruct (send_loop _ _ _ _ _ _ _ _ _ _ _) as [[[srv sh] [x|]] ev];
    cbn [fst snd ending_of closing]; [|done].
  by rewrite app_nil_r.
Qed.

(** The four ways through the script. *)
Lemma run_cases all_data session :
  (∃ c, scan_columns all_data = Ok c ∧ missing_columns c = true ∧
     run header send update user subject body all_data session =
       {| ending := Stopped; final_sheet := all_data;
          events := [Page MissingColumnsError] |})
  ∨ (∃ c, scan_columns all_data = Ok c ∧ missing_columns c = false ∧
       prepare_records c all_data = Ok [] ∧
       run header send update user subject body all_data session =
         {| ending := Stopped; final_sheet := all_data;
            events := [Page NoContactsWarning] |})
  ∨ (∃ c records e, scan_columns all_data = Ok c ∧ missing_columns c = false ∧
       prepare_records c all_data = Ok records ∧ records ≠ [] ∧
       session = inl e ∧
       run header send update user subject body all_data session =
         {| ending := Stopped; final_sheet := all_data;
            events := [Page (FoundContacts (len records)); Page (LoggingIn user);
                       SmtpConnect; Page (SmtpLoginError e)] |})
  ∨ (∃ c records server, scan_columns all_data = Ok c ∧
       missing_columns c = false ∧
       prepare_records c all_data = Ok records ∧ records ≠ [] ∧
       session = inr server ∧
       run header send update user subject body all_data session =
         {| ending :=
              ending_of (loop (status_idx c) (len records) 0 records
                           (server, all_data)).1.2;
            final_sheet :=
              (loop (status_idx c) (len records) 0 records
                 (server, all_data)).1.1.2;
            events :=
              [Page (FoundContacts (len records)); Page (LoggingIn user);
               SmtpConnect; Page ProgressBar]
              ++ (loop (status_idx c) (len records) 0 records
                    (server, all_data)).2
              ++ closing (loop (status_idx c) (len records) 0 records
                            (server, all_data)).1.2 |}).
Proof.
  destruct (scan_columns_total all_data) as [c Hc].
  destruct (missing_columns c) eqn:Hm.
  { left. exists c. split_and!; [done..|]. unfold run. by rewrite Hc, Hm. }
  right.
  pose proof (prepare_records_spec c all_data
                (scan_columns_well_formed _ _ Hc Hm)) as Hp.
  destruct (map _ _) as [|r rest] eqn:Hrecords.
  { left. exists c. split_and!; [done..|]. unfold run. by rewrite Hc, Hm, Hp. }
  right. destruct session as [e|server].
  - left. exists c, (r :: rest), e. split_and!; [done..|].
    unfold run. by rewrite Hc, Hm, Hp.
  - right. exists c, (r :: rest), server. split_and!; [done..|].
    by apply run_loop.
Qed.

End Run.

Section Attempts.

Variable header : str → str → option exn.
Context {smtp : Type}.
Variable send : smtp → EmailMessage → smtp * option str.
Variables (user subject body : str).

Local Abbreviation message := (message_of user subject body).
Local Abbreviation build := (build_message header user subject body).
Local Abbreviation through := (completed header user subject body).


End Attempts.

Section WriteBack.

Variable header : str → str → option exn.
Context {smtp : Type}.
Variable send : smtp → EmailMessage → smtp * option str.
Variable update : list (list str) → Z → Z → str → list (list str) * option str.
Variables (user subject body : str).

Local Abbreviation message := (message_of user subject body).
Local Abbreviation build := (build_message header user subject body).
Local Abbreviation through := (completed header user subject body).

(** C4 (as amended).  In the turn of a record whose message has been built,
    the message is submitted once and every cell write goes to the row
    number of the record and the status column, with "Sent" or "Failed" as
    the value, whatever the status read from the sheet was.  When the
    transport accepts the message "Sent" is written, and that is the only
    write if the call returns; when the transport raises, "Failed" is
    written and nothing else.  The [try] also holds the write of "Sent": if
    that call raises, the handler writes "Failed" after it.  A refusal of
    the transport stops nothing: the turn ends with the delay unless the
    write of "Failed" itself raises.  On a worksheet whose writes return,
    the run submits the messages of the records that are not skipped, up to
    the first record whose message cannot be built, writes once for each of
    them according to the answer of the transport, and leaves the worksheet
    read with these writes applied; when every message can be built these
    are all the records that are not skipped, and the script ends on its
    last line. *)
Theorem status_write_back (all_data : list (list str)) (c : columns)
    (records : list contact) (server : smtp)
    (sidx total idx : Z) (r : contact) (w : smtp * list (list str)) :
  let turn := send_one header send update user subject body sidx total idx r w in
  let answer := (send w.1 (message r)).2 in
  let row := row_number r in
  let col := sidx + 1 in
  let sent := update w.2 row col (py "Sent") in
  let out := run header send reliable_sheet user subject body all_data
               (inr server) in
  let todo := attempted (through records) in
  let replies := answers send server (map message todo) in
  (already_sent r = false → build r = Ok (message r) →
     sends turn.2 = [message r]
     ∧ Forall (λ x, x.1 = (row, col) ∧ (x.2 = py "Sent" ∨ x.2 = py "Failed"))
         (writes turn.2)
     ∧ (answer = None → sent.2 = None →
          writes turn.2 = [(row, col, py "Sent")] ∧
          turn.1.2 = None ∧ turn.1.1.2 = sent.1)
     ∧ (∀ e, answer = Some e →
          writes turn.2 = [(row, col, py "Failed")] ∧
          turn.1.2 = ApiError <$> (update w.2 row col (py "Failed")).2)
     ∧ (∀ e, answer = None → sent.2 = Some e →
          writes turn.2 = [(row, col, py "Sent"); (row, col, py "Failed")] ∧
          turn.1.2 = ApiError <$> (update sent.1 row col (py "Failed")).2)
     ∧ (turn.1.2 = None → last turn.2 = Some Sleep))
  ∧ (scan_columns all_data = Ok c → missing_columns c = false →
     prepare_records c all_data = Ok records → records ≠ [] →
     sends (events out) = map message todo
     ∧ length replies = length todo
     ∧ writes (events out) =
         zip_with (λ r a, (row_number r, status_idx c + 1, status_literal a))
           todo replies
     ∧ final_sheet out = apply_writes all_data (writes (events out))
     ∧ ((∀ x, x ∈ records →
           already_sent x = true ∨ accepted header user subject body x = true) →
        todo = attempted records ∧ ending out = Finished)
     ∧ (∀ x, x ∈ todo →
          ∃ cells, all_data !! Z.to_nat (row_number x - 1) = Some cells ∧
                   Email x = field cells (email_idx c))).
Proof.
  intros turn answer row col sent out todo replies. split.
  - intros Hs Hb. subst turn answer sent row col.
    pose proof (send_one_literals header send update user subject body sidx
                  total idx r w) as Hlit.
    split; [|split; [exact Hlit|clear Hlit]].
    { destruct (send_one_sends header send update user subject body sidx
                  total idx r w) as [H|(_ & _ & H)]; [|done].
      revert H. rewrite send_one_built by done. cbv zeta.
      repeat match goal with
             | |- context [match ?x with Some _ => _ | None => _ end] =>
                 destruct x
             end; done. }
    rewrite send_one_built by done. cbv zeta.
    destruct (send w.1 (message r)) as [srv [e|]]; cbn [fst snd].
    + destruct (update w.2 _ _ (py "Failed")) as [sh2 [e2|]]; cbn [fst snd];
        by split_and!.
    + destruct (update w.2 _ _ (py "Sent")) as [sh1 [e1|]]; cbn [fst snd];
        [|by split_and!].
      destruct (update sh1 _ _ (py "Failed")) as [sh2 [e2|]]; cbn [fst snd];
        by split_and!.
  - intros Hc Hm Hp Hne. subst out.
    rewrite (run_loop _ _ _ _ _ _ _ _ _ _ Hc Hm Hp Hne).
    cbn [ending events final_sheet].
    rewrite !sends_app, !writes_app, sends_closing, writes_closing.
    cbn [sends writes omap app]. rewrite !app_nil_r.
    split_and!.
    + apply send_loop_sends.
    + unfold replies. by rewrite answers_length, length_map.
    + apply send_loop_writes.
    + apply send_loop_sheet.
    + intros Hall. apply completed_all in Hall. unfold todo. rewrite Hall.
      split; [done|]. by rewrite send_loop_finished.
    + intros x [_ Hx%completed_elem]%attempted_elem.
      destruct (prepared_record_row _ _ _ _ Hc Hm Hp Hx)
        as (cells & Hl & _ & _ & Hrec).
      exists cells. split; [done|]. by rewrite Hrec.
Qed.

(** C8. When no row qualifies the script shows the no-contacts warning, a
    message that is not the missing-columns error, and stops there: the
    worksheet is untouched and nothing reaches the mail transport, neither
    a connection nor a message. *)
Theorem empty_result_halt (all_data : list (list str)) (c : columns)
    (session : str + smtp) :
  scan_columns all_data = Ok c → missing_columns c = false →
  prepare_records c all_data = Ok [] →
  let out := run header send update user subject body all_data session in
  ending out = Stopped
  ∧ events out = [Page NoContactsWarning]
  ∧ events out ≠ [Page MissingColumnsError]
  ∧ final_sheet out = all_data
  ∧ Forall (λ e, touches_smtp e = false) (events out)
  ∧ sends (events out) = [].
Proof.
  intros Hc Hm Hp out. unfold out, run. rewrite Hc, Hm, Hp.
  cbn [ending events final_sheet]. split_and!; [done..| |done].
  by repeat constructor.
Qed.

End WriteBack.

(** ** Order of the effects *)

(** C7. The records are processed in the order of the list, and the status
    write of a record comes right after its send.  So at any point of the
    loop (any prefix of its trace) the cell writes done so far are those of
    the first N records for some N, the worksheet being the initial one
    with exactly these writes; the trace of the first N records opens the
    trace of the whole loop, and a point that has seen a later write has
    seen all of it; the rows written are the row numbers of the attempted
    records in list order, all of them when the loop raises nothing and
    those in front of the record that raises otherwise; and every cell write
    stands immediately after a send. *)
Theorem ordering_prefix {smtp : Type}
    (header : str → str → option exn)
    (send : smtp → EmailMessage → smtp * option str)
    (user subject body : str) (sidx total idx : Z)
    (records : list contact) (w : smtp * list (list str)) :
  let loop := send_loop header send reliable_sheet user subject body sidx total in
  let tr := (loop idx records w).2 in
  (∀ p, p `prefix_of` tr →
     ∃ N, (N ≤ length records)%nat ∧
          writes p = writes (loop idx (take N records) w).2 ∧
          apply_writes w.2 (writes p) = (loop idx (take N records) w).1.1.2)
  ∧ (∀ N, (loop idx (take N records) w).2 `prefix_of` tr)
  ∧ (∀ N p, p `prefix_of` tr →
       (length (writes (loop idx (take N records) w).2) < length (writes p))%nat →
       (loop idx (take N records) w).2 `prefix_of` p)
  ∧ ((loop idx records w).1.2 = None →
       (writes tr).*1.*1 = map row_number (attempted records))
  ∧ (writes tr).*1.*1
    = map row_number (attempted (completed header user subject body records))
  ∧ completed header user subject body records `prefix_of` records
  ∧ (∀ i r c v, tr !! i = Some (UpdateCell r c v) →
       ∃ j m, i = S j ∧ tr !! j = Some (SendMessage m)).
Proof.
  intros loop tr. split_and!.
  - intros p Hp.
    destruct (writes_of_prefix _ _ _ _ _ _ _ _ _ _ _ Hp) as (N & HN & Hw).
    exists N. split_and!; [done..|]. unfold loop. by rewrite send_loop_sheet, Hw.
  - intros N. apply send_loop_take_prefix.
  - intros N p Hp Hlen.
    destruct (prefix_weak_total (loop idx (take N records) w).2 p tr)
      as [H|H]; [apply send_loop_take_prefix|done|done|].
    apply writes_prefix, prefix_length in H. lia.
  - intros Hnone%send_loop_raised. unfold tr, loop.
    by rewrite send_loop_written_rows, Hnone.
  - apply send_loop_written_rows.
  - apply completed_prefix.
  - intros i r c v. apply write_follows_send.
Qed.

(** ** The end-to-end scenario

    Bob has no status and Amy is marked sent: one message, to Bob, one
    write of "Sent" in row 2 of the status column, and no call for Amy. *)
Example end_to_end_scenario :
  let out := run any_header accept_all reliable_sheet (py "me@x.com") (py "Hi")
               (py "Hi {name}") sheet_bob_amy (inr tt) in
  sends (events out)
    = [ {| From := py "me@x.com"; To := py "bob@x.com"; Subject := py "Hi";
           content := py "Hi Bob" |} ]
  ∧ writes (events out) = [(2, 3, py "Sent")]
  ∧ final_sheet out
    = [ [py "Name"; py "Email"; py "Status"];
        [py "Bob"; py "bob@x.com"; py "Sent"];
        [py "Amy"; py "amy@x.com"; py "sent"] ]
  ∧ ending out = Finished.
Proof. by split_and!. Qed.

(** A message refused by the transport is written as "Failed" and the
    records behind it are still processed. *)
Example refused_then_accepted :
  writes (send_loop any_header refuse_amy reliable_sheet (py "me@x.com")
            (py "Hi") (py "Hi {name}")
            2 3 0 [eve; amy; bob] (tt, sheet_bob_amy)).2
  = [(4, 3, py "Failed"); (2, 3, py "Sent")].
Proof. reflexivity. Qed.

(** An email cell of two lines: the script ends in the turn of its record,
    after the progress update and the "Sending" line. *)
Example two_lines_scenario :
  let out := run any_header accept_all reliable_sheet (py "me@x.com") (py "Hi")
               (py "Hi {name}") sheet_two_lines (inr tt) in
  splitlines (strip two_lines) = [py "cy@x.com"; py "cy@y.com"]
  ∧ ending out = Crashed ValueError
  ∧ map To (sends (events out)) = [py "amy@x.com"]
  ∧ writes (events out) = [(2, 3, py "Sent")]
  ∧ last (events out) = Some (Page (Sending []))
  ∧ progress (events out) = [(1, 3); (2, 3)].
Proof. by split_and!. Qed.

(** A worksheet that is down: the refusal of the transport is caught, the
    write of "Failed" in the handler raises, and nothing catches that. *)
Example sheet_down_scenario :
  let out := run any_header refuse_amy sheet_down (py "me@x.com") (py "Hi")
               (py "Hi {name}") sheet_fresh (inr tt) in
  ending out = Crashed (ApiError (py "503 unavailable"))
  ∧ writes (events out) = [(2, 3, py "Failed")]
  ∧ sleeps (events out) = 0%nat
  ∧ final_sheet out = sheet_fresh.
Proof. by split_and!. Qed.

(** The address parser may object on its own, to a value of one line. *)
Example strict_header_scenario :
  let out := run strict_header accept_all reliable_sheet (py "me@x.com")
               (py "Hi") (py "Hi {name}")
               [ [py "Name"; py "Email"]; [py "Al"; py "al@"] ] (inr tt) in
  ending out = Crashed IndexError ∧ sends (events out) = [].
Proof. by split_and!. Qed.

(** ** Witnesses on the sample sheets *)



Lemma status_write_back_witness :
  (let out := run any_header refuse_amy reliable_sheet (py "me@x.com") (py "Hi")
                (py "Hi {name}")
                [ [py "Name"; py "Email"; py "Status"];
                  [py "Amy"; py "amy@x.com"; py "failed"];
                  [py "Bob"; py "bob@x.com"; py "SENT"];
                  [py "Cy"; py "cy@x.com"; py "sEnT?"] ] (inr tt) in
   ending out = Finished ∧
   writes (events out) = [(2, 3, py "Failed"); (4, 3, py "Sent")])
  ∧
  (let turn := send_one any_header accept_all sheet_refusing_sent (py "me@x.com")
                 (py "Hi") (py "Hi {name}") 2 2 0 bob (tt, sheet_bob_amy) in
   writes turn.2 = [(2, 3, py "Sent"); (2, 3, py "Failed")] ∧ turn.1.2 = None).
Proof.
  split.
  - destruct (status_write_back any_header refuse_amy reliable_sheet
                (py "me@x.com") (py "Hi") (py "Hi {name}")
                [ [py "Name"; py "Email"; py "Status"];
                  [py "Amy"; py "amy@x.com"; py "failed"];
                  [py "Bob"; py "bob@x.com"; py "SENT"];
                  [py "Cy"; py "cy@x.com"; py "sEnT?"] ]
                {| name_idx := 0; email_idx := 1; status_idx := 2;
                   business_idx := -1; header_row_num := 1 |}
                [ {| Name := py "Amy"; Email := py "amy@x.com"; Business := [];
                     Status := py "failed"; row_number := 2 |};
                  {| Name := py "Bob"; Email := py "bob@x.com"; Business := [];
                     Status := py "SENT"; row_number := 3 |};
                  {| Name := py "Cy"; Email := py "cy@x.com"; Business := [];
                     Status := py "sEnT?"; row_number := 4 |} ]
                tt 2 2 0 bob (tt, sheet_bob_amy)) as [_ Hrun].
    destruct (Hrun eq_refl eq_refl eq_refl) as (_ & _ & Hw & _ & Hend & _);
      [done|].
    split; [|exact Hw]. apply Hend.
    intros x Hx. right.
    repeat (apply elem_of_cons in Hx as [->|Hx]; [reflexivity|]).
    by apply elem_of_nil in Hx.
  - destruct (status_write_back any_header accept_all sheet_refusing_sent
                (py "me@x.com") (py "Hi") (py "Hi {name}")
                sheet_bob_amy
                {| name_idx := 0; email_idx := 1; status_idx := 2;
                   business_idx := -1; header_row_num := 1 |}
                [bob; amy] tt 2 2 0 bob (tt, sheet_bob_amy)) as [Hturn _].
    destruct (Hturn eq_refl eq_refl) as (_ & _ & _ & _ & Hcaught & _).
    exact (Hcaught (py "429 quota exceeded") eq_refl eq_refl).
Defined.

(** A transport failure followed by a record whose message cannot be
    built: the records behind are not attempted.  And a delivery that
    succeeded, marked "Failed" because the write of "Sent" raised. *)
Lemma status_write_back_counterexample :
  (let out := run any_header refuse_amy reliable_sheet (py "me@x.com") (py "Hi")
                (py "Hi {name}") sheet_two_lines (inr tt) in
   writes (events out) = [(2, 3, py "Failed")]
   ∧ map To (sends (events out)) = [py "amy@x.com"]
   ∧ length (attempted [ {| Name := py "Amy"; Email := py "amy@x.com";
                            Business := []; Status := []; row_number := 2 |};
                         cy;
                         {| Name := py "Bob"; Email := py "bob@x.com";
                            Business := []; Status := []; row_number := 4 |} ])
     = 3%nat
   ∧ ending out = Crashed ValueError)
  ∧
  (let out := run any_header accept_all sheet_refusing_sent (py "me@x.com")
                (py "Hi") (py "Hi {name}") sheet_bob_amy (inr tt) in
   answers accept_all tt (sends (events out)) = [None]
   ∧ writes (events out) = [(2, 3, py "Sent"); (2, 3, py "Failed")]
   ∧ final_sheet out
     = [ [py "Name"; py "Email"; py "Status"];
         [py "Bob"; py "bob@x.com"; py "Failed"];
         [py "Amy"; py "amy@x.com"; py "sent"] ]
   ∧ ending out = Finished).
Proof. by split_and!. Qed.

Lemma empty_result_halt_witness :
  let out := run any_header accept_all reliable_sheet (py "me@x.com") (py "Hi")
               (py "Hi {name}")
               [ [py "Name"; py "Email"]; [py "Cara"; py "  "]; [py "Dan"] ]
               (inr tt) in
  ending out = Stopped ∧ events out = [Page NoContactsWarning].
Proof.
  destruct (empty_result_halt any_header accept_all reliable_sheet
              (py "me@x.com") (py "Hi") (py "Hi {name}")
              [ [py "Name"; py "Email"]; [py "Cara"; py "  "]; [py "Dan"] ]
              {| name_idx := 0; email_idx := 1; status_idx := 2;
                 business_idx := -1; header_row_num := 1 |}
              (inr tt) eq_refl eq_refl eq_refl)
    as (Hend & Hev & _).
  split; [exact Hend|exact Hev].
Defined.

Lemma ordering_prefix_witness :
  ∃ N, (N ≤ 3)%nat ∧
    writes [Page (Progress 1 3); Page (Sending (py "Bob"));
            SendMessage (message_of (py "me@x.com") (py "Hi") (py "Hi {name}") bob);
            UpdateCell 2 3 (py "Sent")]
    = writes (send_loop any_header refuse_amy reliable_sheet (py "me@x.com")
                (py "Hi") (py "Hi {name}")
                2 3 0 (take N [bob; amy; eve]) (tt, sheet_bob_amy)).2.
Proof.
  destruct (ordering_prefix any_header refuse_amy (py "me@x.com") (py "Hi")
              (py "Hi {name}") 2 3 0 [bob; amy; eve] (tt, sheet_bob_amy))
    as (Hpre & _).
  destruct (Hpre [Page (Progress 1 3); Page (Sending (py "Bob"));
                  SendMessage (message_of (py "me@x.com") (py "Hi")
                                 (py "Hi {name}") bob);
                  UpdateCell 2 3 (py "Sent")]) as (N & HN & Hw & _).
  - eexists. vm_compute. reflexivity.
  - exists N. split; [exact HN|exact Hw].
Defined.

(** ** Template rendering *)


Lemma render_absent template name business :
  occurs (py "{name}") template = false →
  occurs (py "{business}") template = false →
  render template name business = template.
Proof.
  intros Hn Hb. unfold render.
  change (py "{name}") with ("{"%char :: py "name}") in *.
  change (py "{business}") with ("{"%char :: py "business}") in *.
  rewrite (replace_absent _ _ name template) by done.
  by rewrite replace_absent.
Qed.

(** C5 (as amended). The body of the message of a record is the template in
    which every "{name}" has been replaced by the trimmed name and then
    every "{business}" of the resulting text by the trimmed business.  For a
    trimmed name that is not empty, has no brace and is not a piece of the
    word "business", this is the template with the two placeholders
    substituted in one pass, every other character (unmatched braces and
    unknown placeholders too) copied as it is.  A template with neither
    placeholder comes back unchanged.  "Hi {name}, re {business}" gives
    "Hi Ana, re Acme" for Ana of Acme and "Hi Ana, re " without a
    business. *)
Theorem template_rendering (user subject template : str) (record : contact) :
  let name := strip (Name record) in
  let business := strip (Business record) in
  let rendered := content (message_of user subject template record) in
  rendered = replace (py "{business}") business
               (replace (py "{name}") name template)
  ∧ (plain_name name = true → rendered = substitute name business template)
  ∧ (occurs (py "{name}") template = false →
     occurs (py "{business}") template = false → rendered = template)
  ∧ (Business record = [] → plain_name name = true →
     rendered = substitute name [] template)
  ∧ render (py "Hi {name}, re {business}") (py "Ana") (py "Acme")
    = py "Hi Ana, re Acme"
  ∧ render (py "Hi {name}, re {business}") (py "Ana") [] = py "Hi Ana, re "
  ∧ (∀ header m, build_message header user subject template record = Ok m →
       content m = rendered).
Proof.
  intros name business rendered. split_and!; [done| | | |done..|].
  - apply render_substitute.
  - apply render_absent.
  - intros Hb Hn. unfold rendered. cbn [content message_of].
    rewrite Hb. by apply render_substitute.
  - by intros header m ->%build_message_inv.
Qed.

Lemma template_rendering_witness :
  content (message_of (py "me@x.com") (py "Hi")
             (py "Dear {name} {nick}, {business}} and {Name}") eve)
  = py "Dear Eve {nick}, Acme} and {Name}".
Proof.
  destruct (template_rendering (py "me@x.com") (py "Hi")
              (py "Dear {name} {nick}, {business}} and {Name}") eve)
    as (_ & Hplain & _).
  exact (Hplain eq_refl).
Defined.

(** The one-pass substitution is not what line 143 computes when the name
    spells the business placeholder, or completes one. *)
Lemma template_rendering_counterexample :
  content (message_of (py "me@x.com") (py "Hi") (py "Hi {name}") odd)
    = py "Hi Acme"
  ∧ substitute (strip (Name odd)) (strip (Business odd)) (py "Hi {name}")
    = py "Hi {business}"
  ∧ content (message_of (py "me@x.com") (py "Hi") (py "Hi {name}") odd)
    ≠ substitute (strip (Name odd)) (strip (Business odd)) (py "Hi {name}")
  ∧ render (py "{bus{name}ess}") (py "in") (py "Acme") = py "Acme"
  ∧ substitute (py "in") (py "Acme") (py "{bus{name}ess}") = py "{business}".
Proof. by split_and!. Qed.

(** ** The status column when the header has none *)

(** C6. When the header row has no "status" label, the status index is the
    number of cells of the header row, one past its last column.  On a grid
    as the worksheet gives it, with every row padded to the same length, no
    row has a cell at that position: the status of every record is the
    empty text, no record is skipped as already sent, and no run shows a
    skip. *)
Theorem status_sentinel_reads (all_data : list (list str)) (c : columns) :
  rectangular all_data →
  scan_columns all_data = Ok c → missing_columns c = false →
  ∃ header records,
    all_data !! Z.to_nat (header_row_num c - 1) = Some header ∧
    prepare_records c all_data = Ok records ∧
    (py "status" ∉ row_lower header →
       status_idx c = len header ∧
       (∀ row, row ∈ all_data → row !! Z.to_nat (status_idx c) = None) ∧
       (∀ r, r ∈ records → Status r = [] ∧ already_sent r = false) ∧
       attempted records = records ∧
       ∀ (smtp : Type) header_factory
         (send : smtp → EmailMessage → smtp * option str) update
         user subject body session name,
         Page (Skipping name)
         ∉ events (run header_factory send update user subject body
                     all_data session)).
Proof.
  intros Hrect Hc Hm.
  destruct (scan_columns_inv _ _ Hc Hm)
    as (pre & header & post & Hsplit & _ & _ & Hh & _ & _ & Hs & _).
  pose proof (scan_columns_well_formed _ _ Hc Hm) as Hwf.
  pose proof (prepare_records_spec c all_data Hwf) as Hp.
  assert (header ∈ all_data) as Hin.
  { rewrite Hsplit. apply elem_of_app. right. by left. }
  eexists header, _. split_and!; [|exact Hp|].
  - rewrite Hh, Hsplit. unfold len.
    replace (Z.to_nat (Z.of_nat (length pre) + 1 - 1)) with (length pre) by lia.
    by rewrite list_lookup_middle.
  - intros Hno. apply contains_false in Hno. rewrite Hno in Hs.
    assert (∀ row, row ∈ all_data → row !! Z.to_nat (status_idx c) = None)
      as Hnone.
    { intros row Hrow. apply lookup_ge_None.
      pose proof (Hrect row header Hrow Hin). rewrite Hs. unfold len. lia. }
    assert (∀ r, r ∈ map (λ p, record_of c p.1 p.2)
                       (filter (λ p, qualifies c p.2) (data_rows c all_data)) →
                 Status r = [] ∧ already_sent r = false) as Hempty.
    { intros r Hr.
      destruct (prepared_record_row _ _ _ _ Hc Hm Hp Hr)
        as (row & Hl & _ & _ & Hrec).
      assert (Status r = []) as HS.
      { rewrite Hrec. cbn [Status record_of]. apply field_short.
        rewrite Hs. apply list_elem_of_lookup_2 in Hl.
        pose proof (Hrect row header Hl Hin). unfold len. lia. }
      split; [done|]. unfold already_sent. by rewrite HS. }
    split_and!; [done..| |].
    + apply attempted_all. intros r Hr. by apply Hempty.
    + intros smtp hf send update user subject body session name Hskip.
      destruct (run_cases hf send update user subject body all_data session)
        as [(c' & _ & _ & Hr)|[(c' & _ & _ & _ & Hr)|
            [(c' & rs & e & _ & _ & _ & _ & _ & Hr)
            |(c' & rs & srv & Hc' & _ & Hp' & _ & _ & Hr)]]];
        rewrite Hr in Hskip; cbn [events] in Hskip.
      1-3: apply list_elem_of_lookup in Hskip as [i Hi];
           by repeat (destruct i as [|i]; try done).
      assert (c' = c) as -> by congruence.
      assert (rs = map (λ p, record_of c p.1 p.2)
                     (filter (λ p, qualifies c p.2) (data_rows c all_data)))
        as -> by congruence.
      rewrite !elem_of_app in Hskip. destruct Hskip as [Hskip|[Hskip|Hskip]].
      * apply list_elem_of_lookup in Hskip as [i Hi].
        by repeat (destruct i as [|i]; try done).
      * apply send_loop_events in Hskip as (_ & _ & Hsk).
        destruct (Hsk name eq_refl) as (r & Hr' & Hsent).
        destruct (Hempty r Hr') as [_ ?]. congruence.
      * destruct (send_loop _ _ _ _ _ _ _ _ _ _ _).1.2;
          apply list_elem_of_lookup in Hskip as [i Hi];
          by repeat (destruct i as [|i]; try done).
Qed.

Lemma status_sentinel_reads_witness :
  ∃ header records,
    sheet_no_status !! 0%nat = Some header ∧
    prepare_records {| name_idx := 0; email_idx := 1; status_idx := 2;
                       business_idx := -1; header_row_num := 1 |} sheet_no_status
      = Ok records ∧
    (∀ r, r ∈ records → Status r = [] ∧ already_sent r = false) ∧
    ∀ name, Page (Skipping name)
            ∉ events (run any_header accept_all reliable_sheet (py "me@x.com")
                        (py "Hi") (py "Hi {name}") sheet_no_status (inr tt)).
Proof.
  destruct (status_sentinel_reads sheet_no_status
              {| name_idx := 0; email_idx := 1; status_idx := 2;
                 business_idx := -1; header_row_num := 1 |})
    as (header & records & Hh & Hp & Hno); [|reflexivity|reflexivity|].
  - intros row row' Hrow Hrow'.
    repeat (apply elem_of_cons in Hrow as [->|Hrow]);
      try (by apply elem_of_nil in Hrow);
      repeat (apply elem_of_cons in Hrow' as [->|Hrow']);
      try (by apply elem_of_nil in Hrow'); reflexivity.
  - exists header, records. split_and!; [exact Hh|exact Hp|..].
    + apply Hno. injection Hh as <-. apply (bool_decide_unpack _). by vm_compute.
    + intros name. apply Hno.
      injection Hh as <-. apply (bool_decide_unpack _). by vm_compute.
Defined.

(** * Further properties of the script *)

(** ** Trimming and lowercasing *)

Lemma lstrip_spaces pre s :
  Forall (λ c, is_space c = true) pre → lstrip (pre ++ s) = lstrip s.
Proof. induction 1 as [|c pre Hc _ IH]; [done|]. simpl. by rewrite Hc. Qed.

Lemma lstrip_all_spaces s : Forall (λ c, is_space c = true) s → lstrip s = [].
Proof. intros H. rewrite <-(app_nil_r s). by rewrite lstrip_spaces. Qed.

Lemma lstrip_head s c : head (lstrip s) = Some c → is_space c = false.
Proof.
  induction s as [|d s IH]; [done|]. simpl.
  destruct (is_space d) eqn:Hd; [done|]. by intros [= <-].
Qed.

Lemma lstrip_fixed s :
  (∀ c, head s = Some c → is_space c = false) → lstrip s = s.
Proof. destruct s as [|c s]; [done|]. intros H. simpl. by rewrite (H c). Qed.

Lemma lstrip_split s :
  ∃ pre, s = pre ++ lstrip s ∧ Forall (λ c, is_space c = true) pre.
Proof.
  induction s as [|c s (pre & Hs & Hpre)]; [by exists []|]. simpl.
  destruct (is_space c) eqn:Hc.
  - exists (c :: pre). split; [by rewrite <-app_comm_cons, <-Hs|by constructor].
  - by exists [].
Qed.

Lemma Forall_space_reverse s :
  Forall (λ c, is_space c = true) s → Forall (λ c, is_space c = true) (reverse s).
Proof.
  rewrite !Forall_forall. intros H c Hc. apply H. by apply elem_of_reverse.
Qed.

(** [strip] takes the whitespace off both ends of a trimmed text and
    nothing else. *)
Lemma strip_sandwich pre core post :
  Forall (λ c, is_space c = true) pre → Forall (λ c, is_space c = true) post →
  trimmed core → strip (pre ++ core ++ post) = core.
Proof.
  intros Hpre Hpost [Hhead Hlast]. unfold strip, rstrip.
  rewrite lstrip_spaces by done.
  destruct core as [|c core].
  - simpl. by rewrite (lstrip_all_spaces post).
  - rewrite <-app_comm_cons. cbn [lstrip]. rewrite (Hhead c) by done.
    rewrite app_comm_cons, reverse_app.
    rewrite (lstrip_spaces (reverse post)) by by apply Forall_space_reverse.
    rewrite lstrip_fixed; [by rewrite reverse_involutive|].
    intros d Hd. apply Hlast. by rewrite <-head_reverse.
Qed.

Lemma strip_split s :
  ∃ pre post, s = pre ++ strip s ++ post ∧
    Forall (λ c, is_space c = true) pre ∧ Forall (λ c, is_space c = true) post.
Proof.
  destruct (lstrip_split s) as (pre & Hs & Hpre).
  destruct (lstrip_split (reverse (lstrip s))) as (post & Hr & Hpost).
  exists pre, (reverse post). split_and!; [|done|by apply Forall_space_reverse].
  rewrite Hs at 1. f_equal. unfold strip, rstrip.
  rewrite <-reverse_app, <-Hr. by rewrite reverse_involutive.
Qed.

Lemma strip_trimmed s : trimmed (strip s).
Proof.
  unfold strip, rstrip. split; intros c Hc.
  - rewrite head_reverse in Hc.
    destruct (lstrip_split (reverse (lstrip s))) as (pre & Hr & Hpre).
    destruct (lstrip (reverse (lstrip s))) as [|d u] eqn:Hu; [done|].
    assert (last (reverse (lstrip s)) = Some c) as Hl.
    { rewrite Hr. by rewrite last_app, Hc. }
    rewrite last_reverse in Hl. by apply lstrip_head in Hl.
  - rewrite last_reverse in Hc. by apply lstrip_head in Hc.
Qed.

Lemma strip_idempotent s : strip (strip s) = strip s.
Proof.
  pose proof (strip_sandwich [] (strip s) [] (Forall_nil_2 _) (Forall_nil_2 _)
                (strip_trimmed s)) as H.
  by rewrite app_nil_r in H.
Qed.

(** Lowercasing neither makes nor removes whitespace. *)
Lemma is_space_lower_char c : is_space (lower_char c) = is_space c.
Proof. by destruct c as [[] [] [] [] [] [] [] []]. Qed.

Lemma head_lower s : head (lower s) = lower_char <$> head s.
Proof. by destruct s. Qed.

Lemma last_lower s : last (lower s) = lower_char <$> last s.
Proof. apply fmap_last. Qed.

Lemma lower_trimmed s : trimmed (lower s) ↔ trimmed s.
Proof.
  unfold trimmed. rewrite head_lower, last_lower.
  split; intros [Hh Hl]; split; intros c Hc.
  - rewrite <-is_space_lower_char. apply Hh. by rewrite Hc.
  - rewrite <-is_space_lower_char. apply Hl. by rewrite Hc.
  - destruct (head s) as [d|] eqn:Hd; [|done]. injection Hc as <-.
    rewrite is_space_lower_char. by apply Hh.
  - destruct (last s) as [d|] eqn:Hd; [|done]. injection Hc as <-.
    rewrite is_space_lower_char. by apply Hl.
Qed.

(** What "trimmed and lowercased, the cell reads [label]" means for a
    label without whitespace at its ends. *)
Lemma normalized_variant label cell :
  trimmed label → lower (strip cell) = label ↔ variant label cell.
Proof.
  intros Hlabel. split.
  - intros Hn. destruct (strip_split cell) as (pre & post & Hs & Hpre & Hpost).
    by exists pre, (strip cell), post.
  - intros (pre & core & post & -> & Hpre & Hpost & Hcore).
    rewrite strip_sandwich; [done..|].
    apply lower_trimmed. by rewrite Hcore.
Qed.

Lemma contains_variant label row :
  trimmed label →
  contains label (row_lower row) = true ↔ ∃ x, x ∈ row ∧ variant label x.
Proof.
  intros Hl. rewrite contains_true, row_lower_elem.
  split; intros (x & Hx & Hv); exists x; (split; [done|]);
    by apply normalized_variant.
Qed.

(** X1. The labels are matched whatever the letter case and the whitespace
    around them.  A record is skipped as already sent exactly when its
    status cell spells "sent" in some letter case between two runs of
    whitespace; a row is the header row test's match exactly when one cell
    spells "name" and one spells "email" in that way; and the optional
    columns are found under the same rule. *)
Theorem labels_ignore_case_and_padding (row : list str) (r : contact) :
  (already_sent r = true ↔ variant (py "sent") (Status r))
  ∧ (is_header row = true ↔
       (∃ x, x ∈ row ∧ variant (py "name") x) ∧
       (∃ x, x ∈ row ∧ variant (py "email") x))
  ∧ (contains (py "status") (row_lower row) = true ↔
       ∃ x, x ∈ row ∧ variant (py "status") x)
  ∧ (contains (py "business name") (row_lower row) = true ↔
       ∃ x, x ∈ row ∧ variant (py "business name") x).
Proof.
  assert (∀ l : str, (∀ c, head l = Some c → is_space c = false) →
            (∀ c, last l = Some c → is_space c = false) → trimmed l) as Ht
    by (by intros; split).
  split_and!.
  - unfold already_sent. rewrite bool_decide_eq_true.
    apply normalized_variant, Ht; by intros c [= <-].
  - unfold is_header. rewrite andb_true_iff.
    rewrite !contains_variant; [done|apply Ht; by intros c [= <-]..].
  - apply contains_variant, Ht; by intros c [= <-].
  - apply contains_variant, Ht; by intros c [= <-].
Qed.

(** ** The four ways the script ends *)

Section Endings.

Variable header : str → str → option exn.
Context {smtp : Type}.
Variable send : smtp → EmailMessage → smtp * option str.
Variable update : list (list str) → Z → Z → str → list (list str) * option str.
Variables (user subject body : str).

Local Abbreviation run' := (run header send update user subject body).

(** X2. The mail transport is contacted exactly when the sheet has a
    header row and at least one qualifying row below it: only then does the
    trace hold a connection attempt, a message or a quit, and then it does
    hold the connection attempt. *)
Theorem smtp_contact_iff (all_data : list (list str)) (session : str + smtp) :
  let found := ∃ c records, scan_columns all_data = Ok c ∧
                 missing_columns c = false ∧
                 prepare_records c all_data = Ok records ∧ records ≠ [] in
  (Exists (λ e, touches_smtp e = true) (events (run' all_data session)) ↔ found)
  ∧ (SmtpConnect ∈ events (run' all_data session) ↔ found).
Proof.
  intros found.
  assert (found → SmtpConnect ∈ events (run' all_data session)) as Hconnect.
  { intros (c & records & Hc & Hm & Hp & Hne).
    destruct (run_cases header send update user subject body all_data session)
      as [(c' & Hc' & Hm' & _)|[(c' & Hc' & _ & Hp' & _)|
          [(c' & rs & e & _ & _ & _ & _ & _ & ->)
          |(c' & rs & srv & _ & _ & _ & _ & _ & ->)]]].
    - congruence.
    - assert (c' = c) as -> by congruence. congruence.
    - cbn [events]. apply list_elem_of_lookup. by exists 2%nat.
    - cbn [events]. apply elem_of_app. left.
      apply list_elem_of_lookup. by exists 2%nat. }
  assert (Exists (λ e, touches_smtp e = true) (events (run' all_data session))
          → found) as Hfound.
  { intros Hex.
    destruct (run_cases header send update user subject body all_data session)
      as [(c & _ & _ & Hr)|[(c & _ & _ & _ & Hr)|
          [(c & rs & e & Hc & Hm & Hp & Hne & _)
          |(c & rs & srv & Hc & Hm & Hp & Hne & _)]]].
    - rewrite Hr in Hex. cbn [events] in Hex.
      apply Exists_cons in Hex as [?|Hex]; [done|]. by apply Exists_nil in Hex.
    - rewrite Hr in Hex. cbn [events] in Hex.
      apply Exists_cons in Hex as [?|Hex]; [done|]. by apply Exists_nil in Hex.
    - by exists c, rs.
    - by exists c, rs. }
  split; split; [done| |..].
  - intros Hf. apply Exists_exists. exists SmtpConnect. split; [auto|done].
  - intros Hin. apply Hfound, Exists_exists. by exists SmtpConnect.
  - done.
Qed.

(** X3. When the login to the mail server fails, nothing is sent and
    nothing is written: the run stops, the worksheet is as it was read, the
    trace has no message, no cell write and no quit, and if the connection
    was attempted at all the last thing shown is the login error with the
    text of the exception. *)
Theorem login_failure_is_harmless (all_data : list (list str)) (e : str) :
  let out := run' all_data (inl e) in
  ending out = Stopped
  ∧ final_sheet out = all_data
  ∧ sends (events out) = []
  ∧ writes (events out) = []
  ∧ sleeps (events out) = 0%nat
  ∧ (SmtpQuit ∉ events out)
  ∧ (SmtpConnect ∈ events out →
       last (events out) = Some (Page (SmtpLoginError e))).
Proof.
  intros out. unfold out.
  destruct (run_cases header send update user subject body all_data (inl e))
    as [(c & _ & _ & ->)|[(c & _ & _ & _ & ->)|
        [(c & rs & e' & _ & _ & _ & _ & [= <-] & ->)
        |(c & rs & srv & _ & _ & _ & _ & ? & _)]]]; [..|done].
  all: cbn [ending final_sheet events]; split_and!; try done.
  all: try (intros Hin; apply list_elem_of_lookup in Hin as [i Hi];
            by repeat (destruct i as [|i]; try done)).
Qed.

End Endings.

(** ** Cells of the worksheet *)

Lemma cell_row (sh : list (list str)) i j :
  cell sh i j = default [] (default [] (sh !! i) !! j).
Proof. unfold cell. by destruct (sh !! i). Qed.

Lemma pad_lookup_lt {A} n (d : A) l k :
  (k < length l)%nat → pad n d l !! k = l !! k.
Proof. intros Hk. unfold pad. by rewrite lookup_app_l. Qed.

Lemma pad_lookup_default {A} n (d : A) l k :
  default d (pad n d l !! k) = default d (l !! k).
Proof.
  destruct (decide (k < length l)%nat) as [Hk|Hk].
  - by rewrite pad_lookup_lt.
  - unfold pad. rewrite lookup_app_r by lia.
    rewrite (lookup_ge_None_2 l k) by lia.
    destruct (replicate _ _ !! _) as [x|] eqn:Hx; [|done].
    by apply lookup_replicate in Hx as [-> _].
Qed.

Lemma pad_length {A} n (d : A) l : length (pad n d l) = (length l `max` n)%nat.
Proof. unfold pad. rewrite length_app, length_replicate. lia. Qed.

Lemma pad_enough {A} n (d : A) l : (n ≤ length l)%nat → pad n d l = l.
Proof.
  intros Hn. unfold pad. replace (n - length l)%nat with 0%nat by lia.
  apply app_nil_r.
Qed.

Lemma set_cell_written sh r c v :
  set_cell sh r c v
  = alter (λ row, written_row row c v) (Z.to_nat (r - 1))
      (pad (S (Z.to_nat (r - 1))) [] sh).
Proof. done. Qed.

(** A write inside the sheet changes one row and keeps the others. *)
Lemma set_cell_lookup sh r c v i :
  (Z.to_nat (r - 1) < length sh)%nat →
  set_cell sh r c v !! i =
    if decide (i = Z.to_nat (r - 1))
    then (λ row, written_row row c v) <$> sh !! i
    else sh !! i.
Proof.
  intros Hr. rewrite set_cell_written, pad_enough by lia.
  case_decide as Hi.
  - subst i. by rewrite list_lookup_alter_eq.
  - by rewrite list_lookup_alter_ne.
Qed.

Lemma set_cell_length sh r c v :
  (Z.to_nat (r - 1) < length sh)%nat → length (set_cell sh r c v) = length sh.
Proof.
  intros Hr. rewrite set_cell_written, pad_enough by lia. apply length_alter.
Qed.

Lemma written_row_lookup row c v j :
  default [] (written_row row c v !! j) =
    if decide (j = Z.to_nat (c - 1)) then v else default [] (row !! j).
Proof.
  unfold written_row. case_decide as Hj.
  - subst j. rewrite list_lookup_insert_eq; [done|]. rewrite pad_length. lia.
  - rewrite list_lookup_insert_ne by done. apply pad_lookup_default.
Qed.

Lemma written_row_length row c v :
  length (written_row row c v) = (length row `max` S (Z.to_nat (c - 1)))%nat.
Proof. unfold written_row. by rewrite length_insert, pad_length. Qed.

(** Writing a cell and reading the sheet: the cell written holds the new
    text, every other cell reads as before. *)
Lemma cell_set_cell sh r c v i j :
  cell (set_cell sh r c v) i j =
    if decide (i = Z.to_nat (r - 1) ∧ j = Z.to_nat (c - 1)) then v
    else cell sh i j.
Proof.
  rewrite !cell_row, set_cell_written.
  destruct (decide (i = Z.to_nat (r - 1))) as [->|Hi].
  - rewrite list_lookup_alter_eq.
    assert (default [] ((λ row, written_row row c v) <$>
                          pad (S (Z.to_nat (r - 1))) [] sh !! Z.to_nat (r - 1))
            = written_row (default [] (sh !! Z.to_nat (r - 1))) c v) as ->.
    { rewrite <-(pad_lookup_default (S (Z.to_nat (r - 1))) [] sh).
      destruct (pad _ _ _ !! _) as [row|] eqn:Hrow; [done|].
      apply lookup_ge_None in Hrow. rewrite pad_length in Hrow. lia. }
    rewrite written_row_lookup.
    destruct (decide (j = Z.to_nat (c - 1))) as [->|Hj].
    + by rewrite decide_True.
    + rewrite decide_False; [done|]. by intros [_ ?].
  - rewrite list_lookup_alter_ne by done. rewrite pad_lookup_default.
    rewrite decide_False; [done|]. by intros [? _].
Qed.

(** The same for a sequence of writes: a cell that no write aims at keeps
    its text, and when the writes aim at different cells each written cell
    holds what was written to it. *)
Lemma cell_apply_writes_other sh ws i j :
  (∀ w, w ∈ ws → target w ≠ (i, j)) →
  cell (apply_writes sh ws) i j = cell sh i j.
Proof.
  revert sh. induction ws as [|w ws IH]; intros sh Hno; [done|].
  cbn [apply_writes foldl]. fold (apply_writes (set_cell sh w.1.1 w.1.2 w.2) ws).
  rewrite IH by (intros w' Hw'; apply Hno; by right).
  rewrite cell_set_cell, decide_False; [done|].
  intros [-> ->]. apply (Hno w); [by left|done].
Qed.

Lemma cell_apply_writes_hit sh ws r c v :
  NoDup (target <$> ws) → (r, c, v) ∈ ws →
  cell (apply_writes sh ws) (Z.to_nat (r - 1)) (Z.to_nat (c - 1)) = v.
Proof.
  revert sh. induction ws as [|w ws IH]; intros sh Hnd Hin.
  { by apply elem_of_nil in Hin. }
  rewrite fmap_cons in Hnd. apply NoDup_cons in Hnd as [Hw Hnd].
  cbn [apply_writes foldl]. fold (apply_writes (set_cell sh w.1.1 w.1.2 w.2) ws).
  apply elem_of_cons in Hin as [<-|Hin].
  - rewrite cell_apply_writes_other.
    + cbn [fst snd]. rewrite cell_set_cell. by rewrite decide_True.
    + intros w' Hw' Ht. apply Hw.
      change (target (r, c, v)) with (Z.to_nat (r - 1), Z.to_nat (c - 1)).
      rewrite <-Ht. apply list_elem_of_fmap. by exists w'.
  - by apply IH.
Qed.


(** ** Rows of the records and of the writes *)

Lemma sorted_fmap_filter {A B} (R : relation B) (f : A → B)
    (P : A → Prop) `{∀ x, Decision (P x)} (l : list A) :
  StronglySorted R (f <$> l) → StronglySorted R (f <$> filter P l).
Proof.
  induction l as [|x l IH]; [done|]. rewrite fmap_cons.
  intros [Hs Hall]%StronglySorted_inv. rewrite filter_cons.
  destruct (decide (P x)); [|by apply IH].
  rewrite fmap_cons. constructor; [by apply IH|].
  apply Forall_forall. intros y Hy. apply (proj1 (Forall_forall _ _) Hall).
  apply list_elem_of_fmap in Hy as (z & -> & Hz).
  apply list_elem_of_filter in Hz as [_ Hz].
  apply list_elem_of_fmap. eauto.
Qed.

Lemma sorted_lt_NoDup (l : list Z) : StronglySorted Z.lt l → NoDup l.
Proof.
  induction 1 as [|x l _ IH Hall]; constructor; [|done].
  intros Hx. apply (proj1 (Forall_forall _ _) Hall) in Hx. lia.
Qed.

(** The records come in increasing row order. *)
Lemma prepared_rows_sorted all_data c records :
  scan_columns all_data = Ok c → missing_columns c = false →
  prepare_records c all_data = Ok records →
  StronglySorted Z.lt (map row_number records).
Proof.
  intros Hc Hm Hp. pose proof (scan_columns_well_formed _ _ Hc Hm) as Hwf.
  rewrite prepare_records_spec in Hp by done. injection Hp as <-.
  rewrite <-list_fmap_compose.
  apply (sorted_fmap_filter Z.lt (λ p, p.1) (λ p, qualifies c p.2)).
  apply enumerate_sorted.
Qed.

Lemma attempted_rows_sorted all_data c records :
  scan_columns all_data = Ok c → missing_columns c = false →
  prepare_records c all_data = Ok records →
  StronglySorted Z.lt (map row_number (attempted records)).
Proof.
  intros Hc Hm Hp. apply sorted_fmap_filter.
  by eapply prepared_rows_sorted.
Qed.

Lemma completed_rows_sorted header user subject body all_data c records :
  scan_columns all_data = Ok c → missing_columns c = false →
  prepare_records c all_data = Ok records →
  StronglySorted Z.lt
    (map row_number (attempted (completed header user subject body records))).
Proof.
  intros Hc Hm Hp. apply sorted_fmap_filter.
  destruct (completed_prefix header user subject body records) as [k Hk].
  pose proof (prepared_rows_sorted _ _ _ Hc Hm Hp) as Hs.
  assert (map row_number records
          = map row_number (completed header user subject body records)
            ++ map row_number k) as Heq
    by (rewrite <-map_app; by f_equal).
  rewrite Heq in Hs. by apply StronglySorted_app_1_l in Hs.
Qed.

(** The row of a record lies below the header row and inside the sheet. *)
Lemma prepared_row_range all_data c records r :
  scan_columns all_data = Ok c → missing_columns c = false →
  prepare_records c all_data = Ok records → r ∈ records →
  1 ≤ header_row_num c < row_number r ∧ row_number r ≤ len all_data.
Proof.
  intros Hc Hm Hp Hr.
  destruct (prepared_record_row _ _ _ _ Hc Hm Hp Hr) as (row & Hrow & Hlt & _).
  destruct (scan_columns_inv _ _ Hc Hm) as (pre & h & post & _ & _ & _ & Hh & _).
  apply lookup_lt_Some in Hrow. unfold len in *. lia.
Qed.

(** The columns found by the scan are four different positions, and the
    name and email columns lie inside the header row. *)
Lemma resolved_distinct i row c :
  resolved i row c →
  name_idx c ≠ email_idx c ∧ status_idx c ≠ name_idx c ∧
  status_idx c ≠ email_idx c ∧ business_idx c ≠ name_idx c ∧
  business_idx c ≠ email_idx c ∧ business_idx c ≠ status_idx c ∧
  name_idx c < len row ∧ email_idx c < len row ∧ status_idx c ≤ len row.
Proof.
  intros (_ & (Hn0 & Hn & _) & (He0 & He & _) & Hs & Hb).
  assert (∀ k x, 0 ≤ k → row_lower row !! Z.to_nat k = Some x → k < len row)
    as Hin.
  { intros k x Hk Hx. apply lookup_lt_Some in Hx.
    unfold row_lower in Hx. rewrite length_map in Hx. unfold len. lia. }
  assert (∀ k k' x y, row_lower row !! Z.to_nat k = Some (py x) →
            row_lower row !! Z.to_nat k' = Some (py y) →
            bool_decide (py x = py y) = false → k ≠ k') as Hne.
  { intros k k' x y Hx Hy Hxy ->. apply bool_decide_eq_false in Hxy.
    congruence. }
  pose proof (Hin _ _ Hn0 Hn). pose proof (Hin _ _ He0 He).
  assert (status_idx c ≠ name_idx c ∧ status_idx c ≠ email_idx c ∧
          0 ≤ status_idx c ≤ len row ∧
          (status_idx c = len row ∨
           row_lower row !! Z.to_nat (status_idx c) = Some (py "status")))
    as (? & ? & ? & Hs').
  { destruct (contains (py "status") (row_lower row)).
    - destruct Hs as (Hs0 & Hs & _). pose proof (Hin _ _ Hs0 Hs).
      split_and!; [by eapply Hne|by eapply Hne|lia..|by right].
    - split_and!; [lia..|by left]. }
  split_and!; [by eapply Hne|done..| | | |done|done|lia].
  - destruct (contains (py "business name") (row_lower row)); [|lia].
    destruct Hb as (_ & Hb & _). by eapply Hne.
  - destruct (contains (py "business name") (row_lower row)); [|lia].
    destruct Hb as (_ & Hb & _). by eapply Hne.
  - destruct (contains (py "business name") (row_lower row)); [|lia].
    destruct Hb as (Hb0 & Hb & _). pose proof (Hin _ _ Hb0 Hb).
    destruct Hs' as [Hs'|Hs']; [lia|]. by eapply Hne.
Qed.

(** ** What a run sends and writes *)

Section Effects.

Variable header : str → str → option exn.
Context {smtp : Type}.
Variable send : smtp → EmailMessage → smtp * option str.
Variables (user subject body : str).

Local Abbreviation message := (message_of user subject body).
Local Abbreviation through := (completed header user subject body).
Local Abbreviation run' := (run header send reliable_sheet user subject body).

(** Either the run sends and writes nothing, or it went through the loop. *)
Lemma run_effects all_data session :
  (sends (events (run' all_data session)) = [] ∧
   writes (events (run' all_data session)) = [] ∧
   final_sheet (run' all_data session) = all_data)
  ∨ (∃ c records server,
       scan_columns all_data = Ok c ∧ missing_columns c = false ∧
       prepare_records c all_data = Ok records ∧ records ≠ [] ∧
       session = inr server ∧
       sends (events (run' all_data session))
       = map message (attempted (through records)) ∧
       writes (events (run' all_data session)) =
         zip_with (λ r a, (row_number r, status_idx c + 1, status_literal a))
           (attempted (through records))
           (answers send server (map message (attempted (through records)))) ∧
       final_sheet (run' all_data session) =
         apply_writes all_data (writes (events (run' all_data session)))).
Proof.
  destruct (run_cases header send reliable_sheet user subject body all_data
              session)
    as [(c & _ & _ & ->)|[(c & _ & _ & _ & ->)|
        [(c & rs & e & _ & _ & _ & _ & _ & ->)
        |(c & rs & srv & Hc & Hm & Hp & Hne & Hs & ->)]]]; [by left..|].
  right. exists c, rs, srv. split_and!; [done..| | |]; cbn [events final_sheet].
  - rewrite !sends_app, send_loop_sends, sends_closing. cbn [sends omap app].
    by rewrite app_nil_r.
  - rewrite !writes_app, writes_closing. cbn [writes omap app].
    rewrite app_nil_r. apply send_loop_writes.
  - rewrite !writes_app, writes_closing. cbn [writes omap app].
    rewrite app_nil_r. apply send_loop_sheet.
Qed.

Lemma run_sheet all_data session :
  final_sheet (run' all_data session)
  = apply_writes all_data (writes (events (run' all_data session))).
Proof.
  destruct (run_effects all_data session)
    as [(_ & -> & ->)|(c & rs & srv & _ & _ & _ & _ & _ & _ & _ & ->)]; done.
Qed.

(** What a run with a session sends and writes, whether or not there are
    records. *)
Lemma run_with_session all_data c records server :
  scan_columns all_data = Ok c → missing_columns c = false →
  prepare_records c all_data = Ok records →
  sends (events (run' all_data (inr server)))
  = map message (attempted (through records))
  ∧ writes (events (run' all_data (inr server)))
    = zip_with (λ r a, (row_number r, status_idx c + 1, status_literal a))
        (attempted (through records))
        (answers send server (map message (attempted (through records)))).
Proof.
  intros Hc Hm Hp.
  destruct records as [|r rest].
  - unfold run. by rewrite Hc, Hm, Hp.
  - assert (r :: rest ≠ []) as Hne by done.
    rewrite (run_loop _ _ _ _ _ _ _ _ _ _ Hc Hm Hp Hne). cbn [events].
    rewrite !sends_app, !writes_app, sends_closing, writes_closing.
    cbn [sends writes omap app]. rewrite !app_nil_r.
    split; [apply send_loop_sends|apply send_loop_writes].
Qed.

(** Where the writes of a run go. *)
Lemma run_write_places all_data session w :
  w ∈ writes (events (run' all_data session)) →
  ∃ c records r,
    scan_columns all_data = Ok c ∧ missing_columns c = false ∧
    prepare_records c all_data = Ok records ∧ r ∈ records ∧
    already_sent r = false ∧
    w.1.1 = row_number r ∧ w.1.2 = status_idx c + 1.
Proof.
  destruct (run_effects all_data session)
    as [(_ & -> & _)|(c & rs & srv & Hc & Hm & Hp & _ & _ & _ & -> & _)].
  { by intros ?%elem_of_nil. }
  intros (r & a & -> & Hr & _)%elem_of_zip_with.
  apply attempted_elem in Hr as [Hs Hr%completed_elem].
  by exists c, rs, r.
Qed.

Lemma run_write_rows all_data session :
  StronglySorted Z.lt (writes (events (run' all_data session))).*1.*1.
Proof.
  destruct (run_effects all_data session)
    as [(_ & -> & _)|(c & rs & srv & Hc & Hm & Hp & _ & _ & _ & -> & _)].
  { constructor. }
  assert (∀ (l : list contact) (k : list (option str)),
            length l = length k →
            (zip_with (λ r a, (row_number r, status_idx c + 1, status_literal a))
               l k).*1.*1 = map row_number l) as Hzip.
  { induction l as [|x l IH]; intros [|a k] Hlen; try done.
    simpl. f_equal. apply IH. simpl in Hlen. lia. }
  rewrite Hzip by by rewrite answers_length, length_map.
  by eapply completed_rows_sorted.
Qed.

Lemma run_write_targets all_data session :
  NoDup (target <$> writes (events (run' all_data session))).
Proof.
  pose proof (run_write_rows all_data session) as Hs.
  assert (Forall (λ w, 1 ≤ w.1.1) (writes (events (run' all_data session))))
    as Hpos.
  { apply Forall_forall. intros w Hw.
    destruct (run_write_places _ _ _ Hw)
      as (c & rs & r & Hc & Hm & Hp & Hr & _ & -> & _).
    pose proof (prepared_row_range _ _ _ _ Hc Hm Hp Hr). lia. }
  revert Hs Hpos. generalize (writes (events (run' all_data session))).
  intros ws. induction ws as [|w ws IH]; [constructor|].
  rewrite !fmap_cons. intros [Hs Hall]%StronglySorted_inv [Hw Hpos]%Forall_cons.
  constructor; [|by apply IH].
  intros (w' & Ht & Hw')%list_elem_of_fmap.
  assert (w.1.1 < w'.1.1) as Hlt.
  { apply (proj1 (Forall_forall _ _) Hall).
    apply list_elem_of_fmap. exists w'.1. split; [done|].
    apply list_elem_of_fmap. by exists w'. }
  unfold target in Ht. injection Ht as Ht _. lia.
Qed.

End Effects.


(** ** Records without a name *)

Section Blank.

Variable header : str → str → option exn.
Context {smtp : Type}.
Variable send : smtp → EmailMessage → smtp * option str.
Variables (user subject body : str).


End Blank.



Section Addressed.

Variable header : str → str → option exn.
Context {smtp : Type}.
Variable send : smtp → EmailMessage → smtp * option str.
Variable update : list (list str) → Z → Z → str → list (list str) * option str.
Variables (user subject body : str).

Local Abbreviation run' := (run header send update user subject body).

(** What is sent and written, on any worksheet: messages and writes of
    unsent records of the sheet. *)
Lemma run_sends_elem all_data session m :
  m ∈ sends (events (run' all_data session)) →
  ∃ c records r,
    scan_columns all_data = Ok c ∧ missing_columns c = false ∧
    prepare_records c all_data = Ok records ∧ r ∈ records ∧
    already_sent r = false ∧ m = message_of user subject body r.
Proof.
  destruct (run_cases header send update user subject body all_data session)
    as [(c & _ & _ & ->)|[(c & _ & _ & _ & ->)|
        [(c & rs & e & _ & _ & _ & _ & _ & ->)
        |(c & rs & srv & Hc & Hm & Hp & Hne & Hs & ->)]]];
    [by intros ?%elem_of_nil..|].
  cbn [events]. rewrite !sends_app, sends_closing. cbn [sends omap app].
  rewrite app_nil_r.
  intros (r & Hr & Hsent & _ & ->)%send_loop_sends_elem.
  by exists c, rs, r.
Qed.

Lemma run_writes_elem all_data session w :
  w ∈ writes (events (run' all_data session)) →
  ∃ c records r,
    scan_columns all_data = Ok c ∧ missing_columns c = false ∧
    prepare_records c all_data = Ok records ∧ r ∈ records ∧
    already_sent r = false ∧
    w.1.1 = row_number r ∧ w.1.2 = status_idx c + 1 ∧
    (w.2 = py "Sent" ∨ w.2 = py "Failed").
Proof.
  destruct (run_cases header send update user subject body all_data session)
    as [(c & _ & _ & ->)|[(c & _ & _ & _ & ->)|
        [(c & rs & e & _ & _ & _ & _ & _ & ->)
        |(c & rs & srv & Hc & Hm & Hp & Hne & Hs & ->)]]];
    [by intros ?%elem_of_nil..|].
  cbn [events]. rewrite !writes_app, writes_closing. cbn [writes omap app].
  rewrite app_nil_r.
  intros (r & Hr & Hsent & Hw & Hv)%send_loop_writes_elem.
  exists c, rs, r. destruct w as [[wr wc] wv]. cbn [fst snd] in *.
  injection Hw as -> ->. by split_and!.
Qed.

(** X4. Every message handed to the transport has the login identity as
    sender, the subject typed on the page, and a recipient that is not
    empty and has no whitespace at its ends: the trimmed email cell of a row
    of the sheet, whose name and business cells give the body. *)
Theorem messages_are_addressed (all_data : list (list str))
    (session : str + smtp) (m : EmailMessage) :
  m ∈ sends (events (run' all_data session)) →
  From m = user ∧ Subject m = subject ∧ To m ≠ [] ∧ trimmed (To m) ∧
  ∃ c row, scan_columns all_data = Ok c ∧ row ∈ all_data ∧
    To m = strip (field row (email_idx c)) ∧
    content m = render body (strip (field row (name_idx c)))
                  (strip (field row (business_idx c))).
Proof.
  intros (c & rs & r & Hc & Hm & Hp & Hr & _ & ->)%run_sends_elem.
  destruct (prepared_record_row _ _ _ _ Hc Hm Hp Hr)
    as (row & Hrow & _ & Hq & Hrec).
  cbn [From Subject To content message_of]. split_and!; [done..| | |].
  - rewrite Hrec. cbn [Email record_of].
    unfold qualifies in Hq. apply andb_true_iff in Hq as [_ Hq].
    destruct (row !! Z.to_nat (email_idx c)) as [e|] eqn:He; [|done].
    rewrite (field_in_range row _ e);
      [|apply (scan_columns_well_formed _ _ Hc Hm)|done].
    intros Hs. by rewrite Hs in Hq.
  - apply strip_trimmed.
  - exists c, row. split_and!; [done| |by rewrite Hrec..].
    by eapply list_elem_of_lookup_2.
Qed.

End Addressed.

Section Guarantees.

Variable header : str → str → option exn.
Context {smtp : Type}.
Variable send : smtp → EmailMessage → smtp * option str.
Variables (user subject body : str).

Local Abbreviation run' := (run header send reliable_sheet user subject body).


(** X6. On a worksheet whose writes return and store the value, after a
    run every cell that was written holds the text written to it, and every
    other cell of the worksheet reads as before; in particular the header
    row and the rows above it, and the name and email cells of every row,
    are what they were. *)
Theorem sheet_after_run (all_data : list (list str)) (session : str + smtp) :
  let out := run' all_data session in
  (∀ r c v, (r, c, v) ∈ writes (events out) →
     cell (final_sheet out) (Z.to_nat (r - 1)) (Z.to_nat (c - 1)) = v)
  ∧ (∀ i j, (∀ w, w ∈ writes (events out) → target w ≠ (i, j)) →
       cell (final_sheet out) i j = cell all_data i j)
  ∧ (∀ cols i j, scan_columns all_data = Ok cols →
       missing_columns cols = false →
       (i < Z.to_nat (header_row_num cols))%nat ∨
       j = Z.to_nat (name_idx cols) ∨ j = Z.to_nat (email_idx cols) →
       cell (final_sheet out) i j = cell all_data i j).
Proof.
  intros out.
  assert (∀ i j, (∀ w, w ∈ writes (events out) → target w ≠ (i, j)) →
            cell (final_sheet out) i j = cell all_data i j) as Hother.
  { intros i j Hno. unfold out. rewrite run_sheet.
    by apply cell_apply_writes_other. }
  split_and!; [|done|].
  - intros r c v Hw. unfold out. rewrite run_sheet.
    apply cell_apply_writes_hit; [apply run_write_targets|done].
  - intros cols i j Hc Hm Hij. apply Hother. intros w Hw Ht.
    destruct (run_write_places _ _ _ _ _ _ _ _ Hw)
      as (c & rs & r & Hc' & _ & Hp & Hr & _ & Hrow & Hcol).
    assert (c = cols) as -> by congruence.
    pose proof (prepared_row_range _ _ _ _ Hc Hm Hp Hr).
    destruct (scan_columns_inv _ _ Hc Hm) as (pre & h & post & _ & _ & _ & Hres).
    destruct (resolved_distinct _ _ _ Hres) as (_ & ? & ? & _).
    destruct (scan_columns_well_formed _ _ Hc Hm) as (? & ? & ? & _).
    unfold target in Ht. injection Ht as Hi Hj. lia.
Qed.

End Guarantees.

(** X7. The four columns resolved from the header row are four different
    positions; the name and email columns are columns of the header row,
    and the status column is one of them or the first position after
    them. *)
Theorem columns_are_distinct (all_data : list (list str)) (c : columns) :
  scan_columns all_data = Ok c → missing_columns c = false →
  NoDup [name_idx c; email_idx c; status_idx c; business_idx c]
  ∧ ∃ header, all_data !! Z.to_nat (header_row_num c - 1) = Some header ∧
      0 ≤ name_idx c < len header ∧ 0 ≤ email_idx c < len header ∧
      0 ≤ status_idx c ≤ len header ∧ -1 ≤ business_idx c < len header.
Proof.
  intros Hc Hm.
  destruct (scan_columns_inv _ _ Hc Hm)
    as (pre & h & post & -> & _ & _ & Hres).
  destruct (resolved_distinct _ _ _ Hres)
    as (? & ? & ? & ? & ? & ? & ? & ? & ?).
  pose proof Hres as (Hh & (? & _) & (? & _) & Hs & Hb).
  assert (0 ≤ len pre) as Hpre0 by (unfold len; lia).
  destruct (resolved_well_formed _ _ _ Hpre0 Hres) as (_ & _ & ? & ? & _).
  split.
  - repeat (apply NoDup_cons; split;
              [rewrite ?elem_of_cons, elem_of_nil; intuition congruence|]).
    apply NoDup_nil_2.
  - exists h. split_and!; [|lia..|].
    + rewrite Hh. unfold len.
      replace (Z.to_nat (Z.of_nat (length pre) + 1 - 1)) with (length pre) by lia.
      by rewrite list_lookup_middle.
    + destruct (contains (py "business name") (row_lower h)); [|lia].
      destruct Hb as (Hb0 & Hb & _). apply lookup_lt_Some in Hb.
      unfold row_lower in Hb. rewrite length_map in Hb. unfold len. lia.
Qed.


(** ** The progress bar *)


Section Progress.

Variable header : str → str → option exn.
Context {smtp : Type}.
Variable send : smtp → EmailMessage → smtp * option str.
Variables (user subject body : str).

Local Abbreviation build := (build_message header user subject body).
Local Abbreviation through := (completed header user subject body).
Local Abbreviation begun := (started header user subject body).





End Progress.

(** ** The business field *)

(** X9. The business of a record is the cell of its row under the leftmost
    "business name" header.  It is the empty text when the header row has
    no such label, and when the row ends before that column; the sentinel -1
    is never used as a subscript, so the last cell of the row is not taken
    for a business. *)
Theorem business_field (all_data : list (list str)) (c : columns)
    (records : list contact) (r : contact) :
  scan_columns all_data = Ok c → missing_columns c = false →
  prepare_records c all_data = Ok records → r ∈ records →
  ∃ header row,
    all_data !! Z.to_nat (header_row_num c - 1) = Some header ∧
    all_data !! Z.to_nat (row_number r - 1) = Some row ∧
    (py "business name" ∉ row_lower header →
       business_idx c = -1 ∧ Business r = []) ∧
    (py "business name" ∈ row_lower header →
       leftmost (py "business name") (row_lower header) (business_idx c) ∧
       (len row ≤ business_idx c → Business r = []) ∧
       (∀ x, row !! Z.to_nat (business_idx c) = Some x → Business r = x)).
Proof.
  intros Hc Hm Hp Hr.
  destruct (scan_columns_inv _ _ Hc Hm)
    as (pre & header & post & Hsplit & _ & _ & Hh & _ & _ & _ & Hb).
  destruct (prepared_record_row _ _ _ _ Hc Hm Hp Hr)
    as (row & Hrow & _ & _ & Hrec).
  exists header, row. split_and!; [|done| |].
  - rewrite Hh, Hsplit. unfold len.
    replace (Z.to_nat (Z.of_nat (length pre) + 1 - 1)) with (length pre) by lia.
    by rewrite list_lookup_middle.
  - intros Hno. apply contains_false in Hno. rewrite Hno in Hb.
    split; [done|]. rewrite Hrec. cbn [Business record_of]. by rewrite Hb.
  - intros Hyes. apply contains_true in Hyes. rewrite Hyes in Hb.
    split_and!; [done| |].
    + intros Hshort. rewrite Hrec. cbn [Business record_of].
      by apply field_short.
    + intros x Hx. rewrite Hrec. cbn [Business record_of].
      apply field_in_range; [apply Hb|done].
Qed.

Lemma business_field_witness :
  ∃ header row,
    sheet_duplicates !! 0%nat = Some header ∧
    sheet_duplicates !! 1%nat = Some row ∧
    leftmost (py "business name") (row_lower header) 2 ∧
    Business (record_of {| name_idx := 1; email_idx := 4; status_idx := 0;
                           business_idx := 2; header_row_num := 1 |}
                2 [py ""; py "Bob"; py "Acme"; py "sent"; py "bob@x.com";
                   py "Robert"; py "r@x.com"; py "Apex"]) = py "Acme".
Proof.
  destruct (business_field sheet_duplicates
              {| name_idx := 1; email_idx := 4; status_idx := 0;
                 business_idx := 2; header_row_num := 1 |}
              _
              (record_of {| name_idx := 1; email_idx := 4; status_idx := 0;
                            business_idx := 2; header_row_num := 1 |}
                 2 [py ""; py "Bob"; py "Acme"; py "sent"; py "bob@x.com";
                    py "Robert"; py "r@x.com"; py "Apex"])
              eq_refl eq_refl eq_refl)
    as (header & row & Hh & Hrow & _ & Hyes).
  { apply list_elem_of_lookup. by exists 0%nat. }
  exists header, row. split_and!; [exact Hh|exact Hrow| |].
  - injection Hh as <-. apply Hyes. apply (bool_decide_unpack _). by vm_compute.
  - injection Hh as <-. injection Hrow as <-.
    apply Hyes; [apply (bool_decide_unpack _); by vm_compute|reflexivity].
Defined.

(** ** The front of the script *)

Section Front.

Variable header : str → str → option exn.
Context {smtp : Type}.
Variable send : smtp → EmailMessage → smtp * option str.
Variable update : list (list str) → Z → Z → str → list (list str) * option str.

(** X10. The script reaches Google Sheets or the mail server only with a
    complete configuration: both environment variables set and not empty,
    the button pressed, and a sheet URL, a subject and a body typed in.
    The sheet it opens is the one of the URL. *)
Theorem contacts_need_configuration (inp : inputs)
    (worksheet : str + list (list str)) (session : str + smtp) :
  Exists (λ ev, external ev = true)
    (script_events (script header send update inp worksheet session)) →
  (∃ u p, EMAIL_USER inp = Some u ∧ u ≠ [] ∧
          EMAIL_PASSWORD inp = Some p ∧ p ≠ []) ∧
  clicked inp = true ∧ sheet_url inp ≠ [] ∧
  email_subject inp ≠ [] ∧ email_body inp ≠ [] ∧
  OpenSheet (sheet_url inp)
    ∈ script_events (script header send update inp worksheet session).
Proof.
  unfold script.
  destruct (EMAIL_USER inp) as [[|a u]|] eqn:Hu; cbn [unset truthy negb orb].
  1,3: intros Hex; by repeat (apply Exists_cons in Hex as [?|Hex]; [done|]);
         apply Exists_nil in Hex.
  destruct (EMAIL_PASSWORD inp) as [[|b p]|] eqn:Hp; cbn [unset truthy negb orb].
  1,3: intros Hex; by repeat (apply Exists_cons in Hex as [?|Hex]; [done|]);
         apply Exists_nil in Hex.
  destruct (clicked inp); cbn [negb].
  2: intros Hex; by repeat (apply Exists_cons in Hex as [?|Hex]; [done|]);
       apply Exists_nil in Hex.
  destruct (sheet_url inp) as [|x url] eqn:Hurl; cbn [truthy negb].
  1: intros Hex; by repeat (apply Exists_cons in Hex as [?|Hex]; [done|]);
       apply Exists_nil in Hex.
  destruct (email_subject inp) as [|y sub]; cbn [truthy negb orb].
  1: intros Hex; by repeat (apply Exists_cons in Hex as [?|Hex]; [done|]);
       apply Exists_nil in Hex.
  destruct (email_body inp) as [|z bod]; cbn [truthy negb].
  1: intros Hex; by repeat (apply Exists_cons in Hex as [?|Hex]; [done|]);
       apply Exists_nil in Hex.
  intros _. split_and!; [by eexists _, _|done..|].
  destruct worksheet as [e|all_data]; cbn [script_events];
    apply elem_of_app; left; apply list_elem_of_lookup; by exists 3%nat.
Qed.

(** X11. When the spreadsheet cannot be opened the script stops on the
    Sheets error, which carries the text of the exception: no row is read,
    and nothing of the classifier, the mail server or the write-back
    happens. *)
Theorem sheets_failure_stops (inp : inputs) (e : str) (session : str + smtp) :
  let out := script header send update inp (inl e) session in
  Forall (λ ev, ∀ x, ev ≠ Core x) (script_events out)
  ∧ script_sheet out = None
  ∧ (OpenSheet (sheet_url inp) ∈ script_events out →
       script_ending out = Stopped ∧
       last (script_events out) = Some (Front (SheetsError e))).
Proof.
  intros out. unfold out, script.
  repeat match goal with
         | |- context [if ?b then _ else _] => destruct b
         end; cbn [script_events script_sheet script_ending app].
  all: split_and!; [by repeat constructor|done|].
  all: try done.
  all: intros Hin; apply list_elem_of_lookup in Hin as [i Hi];
       by repeat (destruct i as [|i]; try done).
Qed.

End Front.

Lemma contacts_need_configuration_witness :
  clicked ready = true ∧
  OpenSheet (sheet_url ready)
    ∈ script_events (script any_header accept_all reliable_sheet ready
                       (inr sheet_bob_amy) (inr tt)).
Proof.
  destruct (contacts_need_configuration any_header accept_all reliable_sheet
              ready (inr sheet_bob_amy) (inr tt)) as (_ & Hc & _ & _ & _ & Ho).
  - apply Exists_exists. exists (OpenSheet (sheet_url ready)).
    split; [|done]. apply list_elem_of_lookup. by exists 3%nat.
  - by split.
Defined.

(** ** Reading the sheet again after a run *)

Lemma write_for_cons w ws n :
  write_for (w :: ws) n = if decide (w.1.1 = n) then Some w else write_for ws n.
Proof.
  unfold write_for. cbn [list_find]. case_decide; [done|].
  by destruct (list_find _ ws) as [[i x]|].
Qed.

Lemma write_for_None ws n :
  write_for ws n = None ↔ ∀ w, w ∈ ws → w.1.1 ≠ n.
Proof.
  induction ws as [|w ws IH].
  - split; [by intros _ w ?%elem_of_nil|done].
  - rewrite write_for_cons. case_decide as Hw.
    + split; [done|]. intros H. destruct (H w); [by left|done].
    + rewrite IH. split.
      * intros H w' [->|Hw']%elem_of_cons; auto.
      * intros H w' Hw'. apply H. by right.
Qed.

Lemma write_for_Some ws n w :
  write_for ws n = Some w → w ∈ ws ∧ w.1.1 = n.
Proof.
  induction ws as [|w' ws IH]; [done|].
  rewrite write_for_cons. case_decide as Hw.
  - intros [= <-]. split; [by left|done].
  - intros [Hin Hn]%IH. split; [by right|done].
Qed.

Lemma row_after_nil n row : row_after [] n row = row.
Proof. done. Qed.

(** The rows of the worksheet after writes to different rows inside it. *)
Lemma apply_writes_lookup sh ws i :
  Forall (λ w, 1 ≤ w.1.1 ∧ (Z.to_nat (w.1.1 - 1) < length sh)%nat) ws →
  NoDup ws.*1.*1 →
  apply_writes sh ws !! i = row_after ws (Z.of_nat i + 1) <$> sh !! i.
Proof.
  revert sh. induction ws as [|w ws IH]; intros sh Hin Hnd.
  { cbn [apply_writes foldl]. by destruct (sh !! i). }
  apply Forall_cons in Hin as [[Hw1 Hw] Hin].
  rewrite !fmap_cons in Hnd. apply NoDup_cons in Hnd as [Hfresh Hnd].
  cbn [apply_writes foldl]. fold (apply_writes (set_cell sh w.1.1 w.1.2 w.2) ws).
  rewrite IH; [|by rewrite set_cell_length|done].
  rewrite set_cell_lookup by done. unfold row_after.
  rewrite write_for_cons. case_decide as Hi; case_decide as Hn; try lia.
  - assert (write_for ws (Z.of_nat i + 1) = None) as ->.
    { apply write_for_None. intros w' Hw' Heq. apply Hfresh.
      rewrite Hn, <-Heq. apply list_elem_of_fmap. exists w'.1. split; [done|].
      apply list_elem_of_fmap. by exists w'. }
    by destruct (sh !! i).
  - done.
Qed.

Lemma enumerate_lookup_fmap {A} s (l : list A) k :
  enumerate s l !! k = (λ x, (s + Z.of_nat k, x)) <$> l !! k.
Proof.
  destruct (l !! k) as [x|] eqn:Hx.
  - by apply enumerate_lookup.
  - apply lookup_ge_None. rewrite enumerate_length. by apply lookup_ge_None.
Qed.

Lemma enumerate_rows {A} (g : Z → A → A) s (l1 l2 : list A) :
  (∀ k, l2 !! k = g (s + Z.of_nat k) <$> l1 !! k) →
  enumerate s l2 = (λ p, (p.1, g p.1 p.2)) <$> enumerate s l1.
Proof.
  intros H. apply list_eq. intros k.
  rewrite list_lookup_fmap, !enumerate_lookup_fmap, H.
  by destruct (l1 !! k).
Qed.

Lemma field_written_row row col v k :
  0 ≤ k → 1 ≤ col →
  field (written_row row col v) k = if decide (k = col - 1) then v else field row k.
Proof.
  intros Hk Hcol. unfold field.
  destruct (0 <=? k) eqn:H0; [|apply Z.leb_gt in H0; lia].
  rewrite written_row_lookup.
  case_decide as H1; case_decide as H2; try done; lia.
Qed.

Lemma field_written_row_absent row col v :
  field (written_row row col v) (-1) = field row (-1).
Proof. done. Qed.

Section Reread.

Variable c : columns.
Hypothesis Hwf : well_formed c.
Hypothesis Hsn : status_idx c ≠ name_idx c.
Hypothesis Hse : status_idx c ≠ email_idx c.
Hypothesis Hsb : business_idx c ≠ status_idx c.

(** A status write keeps a qualifying row qualifying, and changes the
    status of its record and nothing else. *)
Lemma written_row_qualifies row v :
  qualifies c row = true →
  qualifies c (written_row row (status_idx c + 1) v) = true.
Proof.
  destruct Hwf as (Hn & He & Hs & Hb & _).
  unfold qualifies. rewrite !andb_true_iff, !Z.leb_le. intros [Hlen Hq].
  split.
  - unfold len in *. rewrite written_row_length. lia.
  - destruct (row !! Z.to_nat (email_idx c)) as [e|] eqn:Hrow; [|done].
    unfold written_row. rewrite list_lookup_insert_ne by lia.
    rewrite pad_lookup_lt, Hrow; [done|]. by eapply lookup_lt_Some.
Qed.

Lemma written_row_record n row v :
  record_of c n (written_row row (status_idx c + 1) v)
  = {| Name := Name (record_of c n row); Email := Email (record_of c n row);
       Business := Business (record_of c n row); Status := v;
       row_number := n |}.
Proof.
  destruct Hwf as (Hn & He & Hs & Hb & _).
  unfold record_of. cbn [Name Email Business].
  rewrite (field_written_row row _ v (name_idx c)) by lia.
  rewrite (field_written_row row _ v (email_idx c)) by lia.
  rewrite (field_written_row row _ v (status_idx c)) by lia.
  rewrite !decide_False by lia. rewrite decide_True by lia.
  f_equal.
  destruct (decide (business_idx c = -1)) as [->|Hb1]; [done|].
  rewrite field_written_row by lia. by rewrite decide_False by lia.
Qed.

(** A record that no write aims at is read again as it was. *)
Lemma reread_untouched ws r :
  write_for ws (row_number r) = None → reread ws r = r.
Proof. intros H. unfold reread. rewrite H. by destruct r. Qed.

Lemma reread_written ws r w :
  write_for ws (row_number r) = Some w →
  reread ws r
  = {| Name := Name r; Email := Email r; Business := Business r;
       Status := w.2; row_number := row_number r |}.
Proof. intros H. unfold reread. by rewrite H. Qed.

(** The records and the rerun: if every write goes to the status column of
    a qualifying row, the rows qualify as before and give the records
    reread. *)
Lemma prepare_after_writes (ws : list (Z * Z * str)) (l : list (Z * list str)) :
  (∀ w row, w ∈ ws → (w.1.1, row) ∈ l →
     w.1.2 = status_idx c + 1 ∧ qualifies c row = true) →
  map (λ p, record_of c p.1 p.2)
    (filter (λ p, qualifies c p.2) ((λ p, (p.1, row_after ws p.1 p.2)) <$> l))
  = reread ws <$>
      map (λ p, record_of c p.1 p.2) (filter (λ p, qualifies c p.2) l).
Proof.
  induction l as [|[n row] l IH]; intros Hws; [done|].
  rewrite fmap_cons. cbn [fst snd].
  specialize (IH (λ w row' Hw Hin, Hws w row' Hw (list_elem_of_further _ _ _ Hin))).
  destruct (write_for ws n) as [w|] eqn:Hw.
  - apply write_for_Some in Hw as Hw'. destruct Hw' as [Hin Hrow].
    destruct (Hws w row Hin) as [Hcol Hq]; [rewrite Hrow; by left|].
    assert (row_after ws n row = written_row row (status_idx c + 1) w.2) as ->
      by (unfold row_after; by rewrite Hw, Hcol).
    rewrite (filter_cons_True _ (n, written_row row (status_idx c + 1) w.2))
      by (cbn [snd]; by rewrite written_row_qualifies).
    rewrite (filter_cons_True _ (n, row)) by (cbn [snd]; by rewrite Hq).
    cbn [map fmap list_fmap fst snd]. f_equal; [|exact IH].
    rewrite written_row_record. symmetry.
    exact (reread_written ws (record_of c n row) w Hw).
  - assert (row_after ws n row = row) as ->
      by (unfold row_after; by rewrite Hw).
    destruct (qualifies c row) eqn:Hq.
    + rewrite !(filter_cons_True _ (n, row)) by (cbn [snd]; by rewrite Hq).
      cbn [map fmap list_fmap fst snd]. f_equal; [|exact IH].
      by rewrite reread_untouched.
    + rewrite !(filter_cons_False _ (n, row)) by (cbn [snd]; rewrite Hq; tauto).
      exact IH.
Qed.

End Reread.

Lemma reread_other w ws r :
  w.1.1 ≠ row_number r → reread (w :: ws) r = reread ws r.
Proof.
  intros Hw. unfold reread. rewrite write_for_cons. by rewrite decide_False.
Qed.

Lemma reread_others w ws (l : list contact) :
  w.1.1 ∉ map row_number l → reread (w :: ws) <$> l = reread ws <$> l.
Proof.
  intros Hw. apply list_fmap_ext. intros _ r Hr%list_elem_of_lookup_2.
  apply reread_other. intros Heq. apply Hw. rewrite Heq.
  apply list_elem_of_fmap. by exists r.
Qed.

(** The literal written on success is what the skip test looks for; the
    literal written on failure is not. *)
Lemma status_literal_sent a r :
  Status r = status_literal a → already_sent r = bool_decide (a = None).
Proof. intros H. unfold already_sent. rewrite H. by destruct a. Qed.

Lemma message_of_reread user subject body ws r :
  message_of user subject body (reread ws r) = message_of user subject body r.
Proof. done. Qed.

Lemma build_message_reread header user subject body ws r :
  build_message header user subject body (reread ws r)
  = build_message header user subject body r.
Proof. done. Qed.

Lemma completed_passes header user subject body records r :
  r ∈ completed header user subject body records →
  already_sent r = true ∨ accepted header user subject body r = true.
Proof.
  induction records as [|x rest IH]; [by intros ?%elem_of_nil|].
  cbn [completed]. destruct (_ || _) eqn:Hp; [|by intros ?%elem_of_nil].
  intros [->|Hr]%elem_of_cons; [by apply orb_true_iff|by apply IH].
Qed.

(** Read again after writes that aim at no skipped record and at no record
    whose message cannot be built, the records are completed as far as
    before. *)
Lemma completed_reread header user subject body ws (records : list contact) :
  (∀ r, r ∈ records →
     already_sent r = true ∨ accepted header user subject body r = false →
     write_for ws (row_number r) = None) →
  completed header user subject body (reread ws <$> records)
  = reread ws <$> completed header user subject body records.
Proof.
  induction records as [|x rest IH]; intros Hws; [done|].
  specialize (IH (λ r Hr, Hws r (list_elem_of_further _ _ _ Hr))).
  rewrite fmap_cons. cbn [completed].
  assert (accepted header user subject body (reread ws x)
          = accepted header user subject body x) as Hacc by done.
  rewrite Hacc.
  destruct (already_sent x) eqn:Hs.
  - rewrite (reread_untouched ws x) by (apply Hws; [by left|by left]).
    rewrite Hs. cbn [orb]. rewrite fmap_cons.
    rewrite (reread_untouched ws x) by (apply Hws; [by left|by left]).
    by rewrite IH.
  - destruct (accepted header user subject body x) eqn:Ha.
    + rewrite orb_true_r. cbn [orb]. by rewrite fmap_cons, IH.
    + rewrite (reread_untouched ws x) by (apply Hws; [by left|by right]).
      by rewrite Hs.
Qed.

Lemma row_number_inj (records : list contact) x y :
  NoDup (map row_number records) → x ∈ records → y ∈ records →
  row_number x = row_number y → x = y.
Proof.
  induction records as [|z rest IH]; [by intros _ ?%elem_of_nil|].
  cbn [map]. intros [Hfresh Hnd]%NoDup_cons Hx Hy Heq.
  apply elem_of_cons in Hx as [->|Hx]; apply elem_of_cons in Hy as [->|Hy].
  - done.
  - destruct Hfresh. rewrite Heq. apply list_elem_of_fmap. by exists y.
  - destruct Hfresh. rewrite <-Heq. apply list_elem_of_fmap. by exists x.
  - by apply IH.
Qed.

(** After the writes of a loop over [records], the records that the next
    loop does not skip are those whose message was refused. *)
Lemma attempted_reread col (records : list contact) (replies : list (option str)) :
  NoDup (map row_number records) →
  length replies = length (attempted records) →
  attempted
    (reread (zip_with (λ r a, (row_number r, col, status_literal a))
               (attempted records) replies) <$> records)
  = reread (zip_with (λ r a, (row_number r, col, status_literal a))
              (attempted records) replies)
      <$> (filter (λ p, is_Some p.2) (zip (attempted records) replies)).*1.
Proof.
  revert replies. induction records as [|r rest IH]; intros replies Hnd Hlen.
  { done. }
  cbn [map] in Hnd. apply NoDup_cons in Hnd as [Hfresh Hnd].
  assert (∀ l : list contact, (∀ x, x ∈ l → x ∈ rest) →
            row_number r ∉ map row_number l) as Hsub.
  { intros l Hl (x & Hx & Hin)%list_elem_of_fmap. apply Hfresh.
    rewrite Hx. apply list_elem_of_fmap. exists x. split; [done|]. by apply Hl. }
  assert (∀ x, x ∈ attempted rest → x ∈ rest) as Hatt.
  { intros x Hx. by apply list_elem_of_filter in Hx as [_ ?]. }
  rewrite attempted_cons in *. rewrite fmap_cons.
  destruct (already_sent r) eqn:Hr.
  - set (ws := zip_with _ (attempted rest) replies).
    assert (write_for ws (row_number r) = None) as Hnone.
    { apply write_for_None. intros w (x & a & -> & Hx & _)%elem_of_zip_with Heq.
      cbn [fst] in Heq. apply (Hsub (attempted rest) Hatt).
      rewrite <-Heq. apply list_elem_of_fmap. by exists x. }
    rewrite (reread_untouched ws r Hnone).
    rewrite attempted_cons, Hr. by apply IH.
  - destruct replies as [|a replies]; [done|].
    cbn [zip_with]. set (ws := zip_with _ (attempted rest) replies).
    set (w := (row_number r, col, status_literal a)).
    injection Hlen as Hlen.
    rewrite (reread_others w ws rest) by (apply Hsub; auto).
    rewrite attempted_cons.
    rewrite (status_literal_sent a (reread (w :: ws) r))
      by (unfold reread; rewrite write_for_cons; by rewrite decide_True).
    unfold ws. rewrite IH by done. fold ws.
    assert (∀ x, x ∈ (filter (λ p, is_Some p.2) (zip (attempted rest) replies)).*1
                 → x ∈ rest) as Hfailed.
    { intros x ([y b] & -> & Hy)%list_elem_of_fmap.
      apply list_elem_of_filter in Hy as [_ Hy].
      apply elem_of_zip_l in Hy. by apply Hatt. }
    cbn [zip]. rewrite filter_cons. cbn [snd].
    destruct a as [e|].
    + rewrite bool_decide_eq_false_2 by done.
      rewrite decide_True by by eexists.
      rewrite !fmap_cons. cbn [fst]. f_equal.
      by rewrite (reread_others w ws) by (apply Hsub; auto).
    + rewrite bool_decide_eq_true_2 by done.
      rewrite decide_False by by intros [? ?].
      by rewrite (reread_others w ws) by (apply Hsub; auto).
Qed.

(** The scan looks at nothing below the header row. *)
Lemma scan_columns_prefix (sh sh' : list (list str)) c :
  scan_columns sh = Ok c → missing_columns c = false →
  (∀ i, (i < Z.to_nat (header_row_num c))%nat → sh' !! i = sh !! i) →
  scan_columns sh' = Ok c.
Proof.
  intros Hc Hm Hsame.
  destruct (scan_columns_inv _ _ Hc Hm)
    as (pre & h & post & -> & Hpre & Hh & Hres).
  pose proof Hres as [Hnum _].
  assert (take (S (length pre)) sh' = pre ++ [h]) as Htake.
  { apply list_eq. intros i.
    destruct (decide (i < S (length pre))%nat) as [Hi|Hi].
    - rewrite lookup_take_lt by done. rewrite Hsame by (unfold len in Hnum; lia).
      replace (pre ++ h :: post) with ((pre ++ [h]) ++ post)
        by (by rewrite <-app_assoc).
      rewrite lookup_app_l; [done|]. rewrite length_app. simpl. lia.
    - rewrite lookup_take_ge by lia. symmetry. apply lookup_ge_None.
      rewrite length_app. simpl. lia. }
  rewrite <-(take_drop (S (length pre)) sh'), Htake, <-app_assoc.
  unfold scan_columns in *. cbn [app].
  rewrite scan_from_found in Hc |- * by done. done.
Qed.

Section Rerun.

Variable header : str → str → option exn.
Context {smtp : Type}.
Variable send : smtp → EmailMessage → smtp * option str.
Variables (user subject body : str).

Local Abbreviation run' := (run header send reliable_sheet user subject body).

(** Read again after a run, the sheet has the same header row and the same
    records, with the statuses that the run wrote. *)
Lemma rerun_records all_data c records session :
  scan_columns all_data = Ok c → missing_columns c = false →
  prepare_records c all_data = Ok records →
  scan_columns (final_sheet (run' all_data session)) = Ok c ∧
  prepare_records c (final_sheet (run' all_data session))
  = Ok (reread (writes (events (run' all_data session))) <$> records).
Proof.
  intros Hc Hm Hp.
  pose proof (scan_columns_well_formed _ _ Hc Hm) as Hwf.
  set (ws := writes (events (run' all_data session))).
  assert (∀ w, w ∈ ws →
            w.1.2 = status_idx c + 1 ∧ header_row_num c < w.1.1 ∧
            1 ≤ w.1.1 ∧ (Z.to_nat (w.1.1 - 1) < length all_data)%nat ∧
            ∃ r, r ∈ records ∧ w.1.1 = row_number r) as Hws.
  { intros w Hw.
    destruct (run_write_places _ _ _ _ _ _ _ _ Hw)
      as (c' & rs & r & Hc' & _ & Hp' & Hr & _ & Hrow & Hcol).
    assert (c' = c) as -> by congruence.
    assert (rs = records) as -> by congruence.
    pose proof (prepared_row_range _ _ _ _ Hc Hm Hp Hr).
    unfold len in *. split_and!; [done|lia..|by exists r]. }
  assert (∀ i, final_sheet (run' all_data session) !! i
               = row_after ws (Z.of_nat i + 1) <$> all_data !! i) as Hrows.
  { intros i. rewrite run_sheet. apply apply_writes_lookup.
    - apply Forall_forall. intros w Hw. destruct (Hws w Hw) as (_ & _ & ? & ? & _).
      done.
    - apply sorted_lt_NoDup, run_write_rows. }
  split.
  - apply (scan_columns_prefix all_data); [done..|].
    intros i Hi. rewrite Hrows. unfold row_after.
    assert (write_for ws (Z.of_nat i + 1) = None) as ->.
    { apply write_for_None. intros w Hw. destruct (Hws w Hw) as (_ & ? & _). lia. }
    by destruct (all_data !! i).
  - rewrite prepare_records_spec by done.
    rewrite prepare_records_spec in Hp by done. injection Hp as <-.
    f_equal.
    assert (data_rows c (final_sheet (run' all_data session))
            = (λ p, (p.1, row_after ws p.1 p.2)) <$> data_rows c all_data) as ->.
    { unfold data_rows. apply enumerate_rows. intros k.
      rewrite !lookup_drop, Hrows. destruct Hwf as (_ & _ & _ & _ & ?).
      replace (Z.of_nat (Z.to_nat (header_row_num c) + k) + 1)
        with (header_row_num c + 1 + Z.of_nat k) by lia.
      done. }
    destruct (scan_columns_inv _ _ Hc Hm) as (pre & h & post & _ & _ & _ & Hres).
    destruct (resolved_distinct _ _ _ Hres) as (_ & ? & ? & _ & _ & ? & _).
    apply prepare_after_writes; [done..|].
    intros w row Hw Hin. destruct (Hws w Hw) as (Hcol & _ & _ & _ & r & Hr & Hrow).
    split; [done|].
    assert (prepare_records c all_data
            = Ok (map (λ p, record_of c p.1 p.2)
                    (filter (λ p, qualifies c p.2) (data_rows c all_data))))
      as Hp by by apply prepare_records_spec.
    destruct (prepared_record_row _ _ _ _ Hc Hm Hp Hr) as (row' & Hl & _ & Hq & _).
    destruct (data_rows_position c all_data _ _ (proj2 (proj2 (proj2 (proj2 Hwf)))) Hin)
      as [_ Hl'].
    rewrite Hrow in Hl'. congruence.
Qed.

End Rerun.

(** Bookkeeping: the refused messages, read off the answers or off the
    literals written. *)
Lemma failed_by_literal {B} (f : contact → B) (col : Z)
    (att : list contact) (replies : list (option str)) :
  length replies = length att →
  (filter (λ w : Z * Z * str, w.2 = py "Failed")
     (zip_with (λ r a, (row_number r, col, status_literal a)) att replies)).*1.*1
  = map row_number (filter (λ p : contact * option str, is_Some p.2) (zip att replies)).*1
  ∧ (filter (λ p : B * str, p.2 = py "Failed")
       (zip (map f att)
          (zip_with (λ r a, (row_number r, col, status_literal a)) att replies).*2)).*1
    = map f (filter (λ p : contact * option str, is_Some p.2) (zip att replies)).*1
  ∧ (Forall (λ w : Z * Z * str, w.2 = py "Sent")
       (zip_with (λ r a, (row_number r, col, status_literal a)) att replies) →
     filter (λ p : contact * option str, is_Some p.2) (zip att replies) = []).
Proof.
  revert replies. induction att as [|r att IH]; intros [|a replies] Hlen;
    try done.
  injection Hlen as Hlen. destruct (IH replies Hlen) as (IH1 & IH2 & IH3).
  cbn [zip_with zip map fmap list_fmap]. rewrite !filter_cons. cbn [snd].
  destruct a as [e|]; cbn [status_literal].
  - rewrite !decide_True by (done || by eexists). split_and!.
    + rewrite !fmap_cons. cbn [fst map]. by rewrite IH1.
    + rewrite !fmap_cons. cbn [fst map]. f_equal. exact IH2.
    + intros [Hs _]%Forall_cons. by cbn in Hs.
  - rewrite !decide_False by (done || by intros [? ?]). split_and!.
    + exact IH1.
    + exact IH2.
    + intros [_ Hs]%Forall_cons. by apply IH3.
Qed.

Lemma zip_with_rows (col : Z) (l : list contact) (k : list (option str)) :
  length k = length l →
  (zip_with (λ r a, (row_number r, col, status_literal a)) l k).*1.*1
  = map row_number l.
Proof.
  revert k. induction l as [|x l IH]; intros [|a k] Hlen; try done.
  simpl. f_equal. apply IH. simpl in Hlen. lia.
Qed.

(** X12. Running the script again on the sheet it left: on a sheet with a
    status column and a worksheet whose writes return, the second run
    submits exactly the messages that the transport refused in the first
    run, in the same order, and writes in exactly the rows marked "Failed";
    the rows marked "Sent" and the rows skipped the first time are skipped.
    After a run without a refusal the second run sends nothing, writes
    nothing and leaves the sheet as it is.  A first run that ended on an
    exception of the headers changes nothing in this: the second run ends at
    the same record.  (Without a status column the writes land beyond the header row,
    and what the next run reads there depends on how the worksheet pads
    its rows; the statement is kept to sheets that have the column.) *)
Theorem rerun_resends_failures {smtp1 smtp2 : Type}
    (header : str → str → option exn)
    (send1 : smtp1 → EmailMessage → smtp1 * option str)
    (send2 : smtp2 → EmailMessage → smtp2 * option str)
    (user subject body : str) (all_data : list (list str)) (c : columns)
    (header_row : list str) (server1 : smtp1) (server2 : smtp2) :
  scan_columns all_data = Ok c → missing_columns c = false →
  all_data !! Z.to_nat (header_row_num c - 1) = Some header_row →
  py "status" ∈ row_lower header_row →
  let out1 := run header send1 reliable_sheet user subject body all_data
                (inr server1) in
  let out2 := run header send2 reliable_sheet user subject body
                (final_sheet out1) (inr server2) in
  sends (events out2)
  = (filter (λ p : EmailMessage * str, p.2 = py "Failed")
       (zip (sends (events out1)) (writes (events out1)).*2)).*1
  ∧ (writes (events out2)).*1.*1
    = (filter (λ w : Z * Z * str, w.2 = py "Failed") (writes (events out1))).*1.*1
  ∧ (Forall (λ w, w.2 = py "Sent") (writes (events out1)) →
     sends (events out2) = [] ∧ writes (events out2) = [] ∧
     final_sheet out2 = final_sheet out1).
Proof.
  intros Hc Hm _ _ out1 out2.
  pose proof (prepare_records_spec c all_data
                (scan_columns_well_formed _ _ Hc Hm)) as Hp.
  set (records := map _ _) in Hp.
  destruct (rerun_records header send1 user subject body all_data c records
              (inr server1) Hc Hm Hp) as [Hc2 Hp2].
  destruct (run_with_session header send1 user subject body _ _ _ server1
              Hc Hm Hp) as [Hs1 Hw1].
  destruct (run_with_session header send2 user subject body _ _ _ server2
              Hc2 Hm Hp2) as [Hs2 Hw2].
  fold out1 in Hs1, Hw1, Hs2, Hw2. fold out2 in Hs2, Hw2.
  set (through := completed header user subject body) in *.
  set (att := attempted (through records)) in *.
  set (replies := answers send1 server1 (map (message_of user subject body) att))
    in *.
  assert (length replies = length att) as Hlen
    by (unfold replies; by rewrite answers_length, length_map).
  pose proof (sorted_lt_NoDup _ (prepared_rows_sorted _ _ _ Hc Hm Hp)) as Hnd.
  assert (through (reread (writes (events out1)) <$> records)
          = reread (writes (events out1)) <$> through records) as Hthrough.
  { apply completed_reread. intros r Hr Hcase.
    apply write_for_None. intros w Hw Hrow. rewrite Hw1 in Hw.
    apply elem_of_zip_with in Hw as (x & a & -> & Hx & _). cbn [fst] in Hrow.
    apply attempted_elem in Hx as [Hxs Hx].
    pose proof (completed_passes _ _ _ _ _ _ Hx) as Hpass.
    apply completed_elem in Hx.
    pose proof (row_number_inj records x r Hnd Hx Hr Hrow) as ->.
    destruct Hcase as [?|?], Hpass as [?|?]; congruence. }
  assert (NoDup (map row_number (through records))) as Hnd'.
  { destruct (completed_prefix header user subject body records) as [k Hk].
    fold through in Hk. rewrite Hk, map_app in Hnd.
    by apply NoDup_app in Hnd as [? _]. }
  assert (attempted (reread (writes (events out1)) <$> through records)
          = reread (writes (events out1))
              <$> (filter (λ p, is_Some p.2) (zip att replies)).*1) as Hatt.
  { rewrite Hw1. by apply attempted_reread. }
  destruct (failed_by_literal (message_of user subject body)
              (status_idx c + 1) att replies Hlen) as (Hrows & Hmsgs & Hnone).
  rewrite Hthrough, Hatt in Hs2, Hw2.
  assert (map (message_of user subject body)
            (reread (writes (events out1))
               <$> (filter (λ p, is_Some p.2) (zip att replies)).*1)
          = map (message_of user subject body)
              (filter (λ p, is_Some p.2) (zip att replies)).*1) as Hsame.
  { rewrite <-list_fmap_compose. by apply list_fmap_ext. }
  split_and!.
  - rewrite Hs2, Hsame, Hs1, Hw1. by rewrite Hmsgs.
  - rewrite Hw2, zip_with_rows by by rewrite answers_length, !length_map.
    rewrite Hw1, Hrows. rewrite <-list_fmap_compose. by apply list_fmap_ext.
  - intros Hall. rewrite Hw1 in Hall. apply Hnone in Hall.
    rewrite Hall in Hs2, Hw2. split_and!; [done..|].
    pose proof (run_sheet header send2 user subject body (final_sheet out1)
                  (inr server2)) as Hsheet.
    fold out2 in Hsheet. by rewrite Hsheet, Hw2.
Qed.

(** ** Where the write-back goes, and the guards of the classifier *)

(** X13. The write-back column is read off the header row: with a "status"
    label every write goes to the column of the leftmost one; without it
    every write goes to the first column to the right of the header row's
    last cell, so that no labelled column is ever overwritten. *)
Theorem write_back_column {smtp : Type}
    (header_factory : str → str → option exn)
    (send : smtp → EmailMessage → smtp * option str)
    (update : list (list str) → Z → Z → str → list (list str) * option str)
    (user subject body : str) (all_data : list (list str)) (c : columns)
    (header : list str) (session : str + smtp) (w : Z * Z * str) :
  scan_columns all_data = Ok c → missing_columns c = false →
  all_data !! Z.to_nat (header_row_num c - 1) = Some header →
  w ∈ writes (events (run header_factory send update user subject body
                        all_data session)) →
  (py "status" ∈ row_lower header →
     leftmost (py "status") (row_lower header) (w.1.2 - 1))
  ∧ (py "status" ∉ row_lower header → w.1.2 = len header + 1)
  ∧ w.1.2 - 1 ≠ name_idx c ∧ w.1.2 - 1 ≠ email_idx c
  ∧ w.1.2 - 1 ≠ business_idx c.
Proof.
  intros Hc Hm Hh Hw.
  destruct (run_writes_elem _ _ _ _ _ _ _ _ _ Hw)
    as (c' & rs & r & Hc' & _ & _ & _ & _ & _ & Hcol & _).
  assert (c' = c) as -> by congruence.
  destruct (scan_columns_inv _ _ Hc Hm)
    as (pre & h & post & Hsplit & _ & _ & Hres).
  assert (h = header) as ->.
  { destruct Hres as [Hnum _]. rewrite Hnum, Hsplit in Hh. unfold len in Hh.
    replace (Z.to_nat (Z.of_nat (length pre) + 1 - 1)) with (length pre) in Hh
      by lia.
    rewrite list_lookup_middle in Hh by done. congruence. }
  destruct (resolved_distinct _ _ _ Hres) as (_ & ? & ? & _ & _ & ? & _).
  destruct Hres as (_ & _ & _ & Hs & _).
  replace (w.1.2 - 1) with (status_idx c) by lia.
  split_and!; [| |done..|done].
  - intros Hyes. apply contains_true in Hyes. by rewrite Hyes in Hs.
  - intros Hno. apply contains_false in Hno. rewrite Hno in Hs. lia.
Qed.


(** ** Witnesses of the further properties *)


Lemma login_failure_is_harmless_witness :
  last (events (run any_header accept_all reliable_sheet (py "me@x.com")
                  (py "Hi") (py "Hi {name}") sheet_bob_amy
                  (inl (py "535 bad credentials"))))
  = Some (Page (SmtpLoginError (py "535 bad credentials"))).
Proof.
  destruct (login_failure_is_harmless any_header accept_all reliable_sheet
              (py "me@x.com") (py "Hi") (py "Hi {name}") sheet_bob_amy
              (py "535 bad credentials"))
    as (_ & _ & _ & _ & _ & _ & Hlast).
  apply Hlast. apply list_elem_of_lookup. by exists 2%nat.
Defined.

Lemma messages_are_addressed_witness :
  To (message_of (py "me@x.com") (py "Hi") (py "Hi {name}") bob) ≠ [] ∧
  trimmed (To (message_of (py "me@x.com") (py "Hi") (py "Hi {name}") bob)).
Proof.
  destruct (messages_are_addressed any_header accept_all sheet_refusing_sent
              (py "me@x.com") (py "Hi") (py "Hi {name}") sheet_bob_amy (inr tt)
              (message_of (py "me@x.com") (py "Hi") (py "Hi {name}") bob))
    as (_ & _ & Hto & Htrim & _).
  - apply list_elem_of_lookup. by exists 0%nat.
  - by split.
Defined.


Lemma sheet_after_run_witness :
  cell (final_sheet (run any_header refuse_amy reliable_sheet (py "me@x.com")
                       (py "Hi") (py "Hi {name}") sheet_fresh (inr tt))) 2 2
  = py "Sent"
  ∧ cell (final_sheet (run any_header refuse_amy reliable_sheet (py "me@x.com")
                         (py "Hi") (py "Hi {name}") sheet_fresh (inr tt))) 1 1
    = py "amy@x.com".
Proof.
  destruct (sheet_after_run any_header refuse_amy (py "me@x.com") (py "Hi")
              (py "Hi {name}") sheet_fresh (inr tt)) as (Hhit & _ & Hkeep).
  split.
  - apply (Hhit 3 3 (py "Sent")). apply list_elem_of_lookup. by exists 1%nat.
  - apply (Hkeep {| name_idx := 0; email_idx := 1; status_idx := 2;
                    business_idx := -1; header_row_num := 1 |} 1%nat 1%nat
             eq_refl eq_refl).
    right. by right.
Defined.

Lemma columns_are_distinct_witness :
  NoDup [1; 4; 0; 2].
Proof.
  destruct (columns_are_distinct sheet_duplicates
              {| name_idx := 1; email_idx := 4; status_idx := 0;
                 business_idx := 2; header_row_num := 1 |} eq_refl eq_refl)
    as [Hnd _].
  exact Hnd.
Defined.


Lemma sheets_failure_stops_witness :
  script_ending (script any_header accept_all reliable_sheet ready
                   (inl (py "404 not found")) (inr tt))
  = Stopped.
Proof.
  destruct (sheets_failure_stops any_header accept_all reliable_sheet ready
              (py "404 not found") (inr tt))
    as (_ & _ & Hstop).
  apply Hstop. apply list_elem_of_lookup. by exists 3%nat.
Defined.

Lemma rerun_resends_failures_witness :
  map To (sends (events
            (run any_header accept_all reliable_sheet (py "me@x.com") (py "Hi")
               (py "Hi {name}")
               (final_sheet (run any_header refuse_amy reliable_sheet
                               (py "me@x.com") (py "Hi") (py "Hi {name}")
                               sheet_fresh (inr tt)))
               (inr tt))))
  = [py "amy@x.com"].
Proof.
  destruct (rerun_resends_failures any_header refuse_amy accept_all
              (py "me@x.com") (py "Hi") (py "Hi {name}") sheet_fresh
              {| name_idx := 0; email_idx := 1; status_idx := 2;
                 business_idx := -1; header_row_num := 1 |}
              [py "Name"; py "Email"; py "Status"] tt tt
              eq_refl eq_refl eq_refl) as (Hs & _).
  - apply (bool_decide_unpack _). by vm_compute.
  - cbv zeta in Hs. rewrite Hs. reflexivity.
Defined.

Lemma write_back_column_witness :
  leftmost (py "status") (row_lower [py "Name"; py "Email"; py "Status"]) (3 - 1).
Proof.
  destruct (write_back_column any_header accept_all sheet_refusing_sent
              (py "me@x.com") (py "Hi") (py "Hi {name}") sheet_fresh
              {| name_idx := 0; email_idx := 1; status_idx := 2;
                 business_idx := -1; header_row_num := 1 |}
              [py "Name"; py "Email"; py "Status"] (inr tt) (2, 3, py "Failed")
              eq_refl eq_refl eq_refl) as (Hyes & _).
  - apply list_elem_of_lookup. by exists 1%nat.
  - apply Hyes. apply (bool_decide_unpack _). by vm_compute.
Defined.

(** ** The log and the end of the session *)

Section Log.

Variable header : str → str → option exn.
Context {smtp : Type}.
Variable send : smtp → EmailMessage → smtp * option str.
Variable update : list (list str) → Z → Z → str → list (list str) * option str.
Variables (user subject body : str).

Local Abbreviation build := (build_message header user subject body).
Local Abbreviation through := (completed header user subject body).

(** X15. The log has one line for every record whose turn comes to its
    end, in the order of the records and under the trimmed name: a skip
    line for a record already sent, a success or failure line for every
    other one.  It opens with the count of the records found.  When the
    script reaches its last line every record has its line; when it ends on
    an exception of the headers, the last thing shown is the "Sending" line
    of the record that raised, which has no line in the log, as the
    records behind it have none. *)
Theorem one_log_line_per_record (all_data : list (list str)) (c : columns)
    (records : list contact) (server : smtp) :
  scan_columns all_data = Ok c → missing_columns c = false →
  prepare_records c all_data = Ok records → records ≠ [] →
  let out := run header send reliable_sheet user subject body all_data
               (inr server) in
  reported (events out)
  = map (λ r, (strip (Name r), negb (already_sent r))) (through records)
  ∧ head (events out) = Some (Page (FoundContacts (len records)))
  ∧ length (filter (λ x : str * bool, x.2 = false) (reported (events out)))
    = (length (through records) - length (attempted (through records)))%nat
  ∧ (ending out = Finished →
       reported (events out)
       = map (λ r, (strip (Name r), negb (already_sent r))) records)
  ∧ (∀ e, ending out = Crashed e →
       ∃ r, records !! length (reported (events out)) = Some r ∧
            already_sent r = false ∧ build r = Raise e ∧
            last (events out) = Some (Page (Sending (strip (Name r))))).
Proof.
  intros Hc Hm Hp Hne out.
  assert (reported (events out)
          = map (λ r, (strip (Name r), negb (already_sent r))) (through records))
    as Hlog.
  { unfold out. rewrite (run_loop _ _ _ _ _ _ _ _ _ _ Hc Hm Hp Hne).
    cbn [events]. rewrite !reported_app, send_loop_reported.
    assert (∀ x, reported (closing x) = []) as -> by by intros [?|].
    change (reported [Page (FoundContacts (len records)); Page (LoggingIn user);
                      SmtpConnect; Page ProgressBar]) with (@nil (str * bool)).
    by rewrite app_nil_r. }
  split; [exact Hlog|]. split.
  { unfold out. by rewrite (run_loop _ _ _ _ _ _ _ _ _ _ Hc Hm Hp Hne). }
  split.
  { rewrite Hlog. generalize (through records). clear.
    intros l. induction l as [|r rest IH]; [done|].
    rewrite attempted_cons. cbn [map fmap list_fmap]. rewrite filter_cons.
    cbn [snd].
    pose proof (length_filter (λ r, already_sent r = false) rest) as Hle.
    fold (attempted rest) in Hle.
    destruct (already_sent r); cbn [negb].
    - rewrite decide_True by done. cbn [length]. rewrite IH. lia.
    - rewrite decide_False by done. cbn [length]. rewrite IH. lia. }
  split.
  - rewrite Hlog. unfold out.
    rewrite (run_loop _ _ _ _ _ _ _ _ _ _ Hc Hm Hp Hne). cbn [ending].
    destruct (send_loop _ _ _ _ _ _ _ _ _ _ _).1.2 eqn:Hraised; [done|].
    intros _. apply send_loop_raised in Hraised. by rewrite Hraised.
  - rewrite Hlog, length_map. unfold out.
    rewrite (run_loop _ _ _ _ _ _ _ _ _ _ Hc Hm Hp Hne). cbn [ending events].
    intros e He.
    destruct (send_loop_crashed header send user subject body (status_idx c)
                (len records) 0 records (server, all_data))
      as (r & e' & Hr & Hsent & Hb & Hraised).
    { intros Hthrough. rewrite send_loop_finished in He by done. done. }
    rewrite Hraised in He |- *. injection He as <-.
    exists r. split_and!; [done..|]. cbn [closing]. rewrite app_nil_r.
    clear Hlog out Hp Hne.
    assert (∀ total idx w (l : list contact) pre,
              l !! length (through l) = Some r →
              last (pre ++ (send_loop header send reliable_sheet user subject
                              body (status_idx c) total idx l w).2)
              = Some (Page (Sending (strip (Name r))))) as Hlast.
    { intros total idx w l. revert idx w.
      induction l as [|x rest IH]; intros idx w pre; [done|].
      by_turn x; cbn [length lookup list_lookup snd]; intros Hx.
      - rewrite app_assoc. by apply IH.
      - rewrite app_assoc. by apply IH.
      - injection Hx as ->. by rewrite last_app. }
    by apply Hlast.
Qed.


End Log.

Lemma one_log_line_per_record_witness :
  reported (events (run any_header refuse_amy reliable_sheet (py "me@x.com")
                      (py "Hi") (py "Hi {name}") sheet_bob_amy (inr tt)))
  = [(py "Bob", true); (py "Amy", false)].
Proof.
  destruct (one_log_line_per_record any_header refuse_amy (py "me@x.com")
              (py "Hi") (py "Hi {name}") sheet_bob_amy
              {| name_idx := 0; email_idx := 1; status_idx := 2;
                 business_idx := -1; header_row_num := 1 |}
              [bob; amy] tt eq_refl eq_refl eq_refl) as (Hlog & _); [done|].
  exact Hlog.
Defined.

